(** * Classy: class-name minifier (main.go)

    A shallow embedding of the extraction / ranking / rewriting engine of
    [main.go], together with the parts of the Go libraries it calls
    ([strings], [fmt], [sort], [bufio] and [regexp2]).

    Conventions.
    - A Go [string] is a Rocq [string]; lines are ASCII text, on which
      regexp2's [\w] and [\s] and Go's [unicode.IsSpace] are the ASCII
      classes defined below.
    - A Go [int] is a [Z]; the one place where it can wrap
      ([classCount[name]++]) has the 64-bit wrap-around written out.
    - A Go [map] is a [gmap]; the iteration order of [range] over a map
      is an explicit argument.
    - A slice expression that is out of range panics in Go; it is [None]
      here, and the functions that slice run in the [option] monad. *)

From Stdlib Require Import ZArith Ascii String Permutation Lia.
From Stdlib Require Import Decimal DecimalFacts DecimalNat DecimalString.
From stdpp Require Import base option list gmap strings sorting.

Local Open Scope Z_scope.

(** The double-quote and single-quote characters, and the control
    characters that the sources write as escapes. *)
Definition dq_c : ascii := "034"%char.
Definition sq_c : ascii := "039"%char.
Definition lf_c : ascii := "010"%char.
Definition cr_c : ascii := "013"%char.
Definition dq : string := String dq_c EmptyString.
Definition sq : string := String sq_c EmptyString.
Definition LF : string := String lf_c EmptyString.
Definition CR : string := String cr_c EmptyString.

(** ** Go's [strings] package *)
Module Strings.

Definition len (s : string) : Z := Z.of_nat (String.length s).

Fixpoint drop (n : nat) (s : string) : string :=
  match n, s with
  | O, _ => s
  | S n', String _ s' => drop n' s'
  | S _, EmptyString => EmptyString
  end.

Fixpoint take (n : nat) (s : string) : string :=
  match n, s with
  | S n', String a s' => String a (take n' s')
  | _, _ => EmptyString
  end.

(** [s[lo:hi]]: panics unless [0 <= lo <= hi <= len(s)]. *)
Definition slice (s : string) (lo hi : Z) : option string :=
  if (0 <=? lo) && (lo <=? hi) && (hi <=? len s)
  then Some (take (Z.to_nat (hi - lo)) (drop (Z.to_nat lo) s))
  else None.

Definition slice_from (s : string) (lo : Z) : option string :=
  slice s lo (len s).

Definition slice_to (s : string) (hi : Z) : option string :=
  slice s 0 hi.

Definition HasPrefix (s pre : string) : bool := String.prefix pre s.

Definition HasSuffix (s suf : string) : bool :=
  (String.length suf <=? String.length s)%nat
  && String.eqb (drop (String.length s - String.length suf) s) suf.

(** [cut sep s] splits [s] around the first instance of [sep]. *)
Fixpoint cut (sep s : string) : option (string * string) :=
  if String.prefix sep s then Some (EmptyString, drop (String.length sep) s)
  else match s with
       | EmptyString => None
       | String a s' =>
           match cut sep s' with
           | Some (b, r) => Some (String a b, r)
           | None => None
           end
       end.

Definition Index (s sub : string) : Z :=
  match cut sub s with
  | Some (b, _) => len b
  | None => -1
  end.

Fixpoint last_index_go (sub s : string) (i found : Z) : Z :=
  let found' := if String.prefix sub s then i else found in
  match s with
  | EmptyString => found'
  | String _ s' => last_index_go sub s' (i + 1) found'
  end.

Definition LastIndex (s sub : string) : Z := last_index_go sub s 0 (-1).

(** [asciiSpace] of package [strings]: what [unicode.IsSpace] is on the
    bytes below 128. *)
Definition isSpace (c : ascii) : bool :=
  match c with
  | "009" | "010" | "011" | "012" | "013" | " " => true
  | _ => false
  end%char.

(** [Fields]: the maximal runs of non-space characters, in order.
    [fields_go s] returns the run that starts [s] (empty when [s] starts
    with a space) and the runs after it. *)
Fixpoint fields_go (s : string) : string * list string :=
  match s with
  | EmptyString => (EmptyString, [])
  | String a s' =>
      let '(w, fs) := fields_go s' in
      if isSpace a
      then (EmptyString, match w with EmptyString => fs | _ => w :: fs end)
      else (String a w, fs)
  end.

Definition Fields (s : string) : list string :=
  let '(w, fs) := fields_go s in
  match w with EmptyString => fs | _ => w :: fs end.

Fixpoint Join (elems : list string) (sep : string) : string :=
  match elems with
  | [] => EmptyString
  | [e] => e
  | e :: rest => e +:+ sep +:+ Join rest sep
  end.

Fixpoint explode (s : string) : list string :=
  match s with
  | EmptyString => []
  | String a s' => String a EmptyString :: explode s'
  end.

(** [genSplit] with [sepSave = 0]: at most [n] pieces when [n > 0], all
    of them when [n < 0].  The loop runs at most [len(s)] times. *)
Fixpoint split_go (fuel : nat) (s sep : string) (n : Z) : list string :=
  match fuel with
  | O => [s]
  | S fuel' =>
      if n =? 1 then [s]
      else match cut sep s with
           | None => [s]
           | Some (b, r) => b :: split_go fuel' r sep (n - 1)
           end
  end.

Definition genSplit (s sep : string) (n : Z) : list string :=
  if n =? 0 then []
  else match sep with
       | EmptyString =>
           if n <? 0 then explode s
           else let k := Z.to_nat (n - 1) in
                if (k <? String.length s)%nat
                then List.app (explode (take k s)) [drop k s]
                else explode s
       | _ => split_go (String.length s) s sep n
       end.

Definition Split (s sep : string) : list string := genSplit s sep (-1).
Definition SplitN (s sep : string) (n : Z) : list string := genSplit s sep n.

Definition inCutset (cutset : string) (c : ascii) : bool :=
  match String.index 0 (String c EmptyString) cutset with
  | Some _ => true
  | None => false
  end.

Fixpoint trimLeftFunc (f : ascii -> bool) (s : string) : string :=
  match s with
  | EmptyString => EmptyString
  | String a s' => if f a then trimLeftFunc f s' else s
  end.

Fixpoint trimRightFunc (f : ascii -> bool) (s : string) : string :=
  match s with
  | EmptyString => EmptyString
  | String a s' =>
      match trimRightFunc f s' with
      | EmptyString => if f a then EmptyString else String a EmptyString
      | t => String a t
      end
  end.

Definition Trim (s cutset : string) : string :=
  trimRightFunc (inCutset cutset) (trimLeftFunc (inCutset cutset) s).

Definition TrimSpace (s : string) : string :=
  trimRightFunc isSpace (trimLeftFunc isSpace s).

(** [Replace(s, old, new, n)]: the first [n] non-overlapping instances
    of [old] (all of them when [n < 0]); an empty [old] matches before
    every character and at the end. *)
Fixpoint replace_go (fuel : nat) (s old new : string) (n : Z) : string :=
  match fuel with
  | O => s
  | S fuel' =>
      if n =? 0 then s
      else match old with
           | EmptyString =>
               match s with
               | EmptyString => new
               | String a s' =>
                   new +:+ String a (replace_go fuel' s' old new (n - 1))
               end
           | _ =>
               match cut old s with
               | None => s
               | Some (b, r) =>
                   b +:+ new +:+ replace_go fuel' r old new (n - 1)
               end
           end
  end.

Definition Replace (s old new : string) (n : Z) : string :=
  if String.eqb old new || (n =? 0) then s
  else replace_go (S (String.length s)) s old new n.

End Strings.

(** ** The regexp2 engine

    regexp2 is a backtracking engine: quantifiers are greedy, alternatives
    are tried in order, and the first start position at which the pattern
    matches wins.  [run r s k] matches [r] at the front of [s] and hands
    what is left to the continuation [k]; backtracking is the failure of
    [k].  Only the matched text ([Match.String()]) is used by [main.go], so
    capture groups are transparent. *)
Module Regexp2.

Inductive regex : Type :=
| Eps : regex
| Class (p : ascii -> bool) : regex
| Cat (r1 r2 : regex) : regex
| Or (r1 r2 : regex) : regex
| Many (r : regex) : regex.

Definition Lit (c : ascii) : regex := Class (Ascii.eqb c).
Definition Opt (r : regex) : regex := Or r Eps.
Definition Many1 (r : regex) : regex := Cat r (Many r).
Definition Grp (r : regex) : regex := r.

Fixpoint Str (s : string) : regex :=
  match s with
  | EmptyString => Eps
  | String a s' => Cat (Lit a) (Str s')
  end.

Fixpoint Seq (rs : list regex) : regex :=
  match rs with
  | [] => Eps
  | [r] => r
  | r :: rest => Cat r (Seq rest)
  end.

(** One more greedy iteration of [step] if it consumes something and
    the rest of the pattern then matches, otherwise leave the loop. *)
Fixpoint many_go (step : string -> (string -> option string) -> option string)
    (k : string -> option string) (fuel : nat) (s : string) : option string :=
  match fuel with
  | O => k s
  | S fuel' =>
      match step s (fun s' =>
              if (String.length s' <? String.length s)%nat
              then many_go step k fuel' s' else None) with
      | Some e => Some e
      | None => k s
      end
  end.

Fixpoint run (r : regex) (s : string) (k : string -> option string)
  : option string :=
  match r with
  | Eps => k s
  | Class p =>
      match s with
      | String a s' => if p a then k s' else None
      | EmptyString => None
      end
  | Cat r1 r2 => run r1 s (fun s' => run r2 s' k)
  | Or r1 r2 =>
      match run r1 s k with
      | Some e => Some e
      | None => run r2 s k
      end
  | Many r1 => many_go (run r1) k (String.length s) s
  end.

(** A match, as regexp2's [Capture]: the text and the matched span.
    regexp2 keeps the text as runes and [String()] encodes the span again;
    on ASCII text that is the span of bytes. *)
Record Match : Type := mkMatch { text : string; Index : nat; Length : nat }.

Definition String_ (m : Match) : string :=
  Strings.take (Length m) (Strings.drop (Index m) (text m)).

(** Length of the match of [re] at the front of [s]. *)
Definition match_here (re : regex) (s : string) : option nat :=
  match run re s Some with
  | Some rest => Some (String.length s - String.length rest)%nat
  | None => None
  end.

(** The scan for the leftmost start position, from position [pos]
    (whose suffix of the text is [s]). *)
Fixpoint scan (re : regex) (txt : string) (pos : nat) (s : string)
  : option Match :=
  match match_here re s with
  | Some n => Some (mkMatch txt pos n)
  | None =>
      match s with
      | EmptyString => None
      | String _ s' => scan re txt (S pos) s'
      end
  end.

Definition runFrom (re : regex) (txt : string) (startAt : nat)
  : option Match :=
  if (startAt <=? String.length txt)%nat
  then scan re txt startAt (Strings.drop startAt txt)
  else None.

Definition FindStringMatch (re : regex) (s : string) : option Match :=
  runFrom re s 0.

(** The next match starts where the previous one ended, one further
    when the previous one was empty. *)
Definition FindNextMatch (re : regex) (m : Match) : option Match :=
  let textpos := (Index m + Length m)%nat in
  match Length m with
  | O => if (textpos =? String.length (text m))%nat then None
         else runFrom re (text m) (S textpos)
  | _ => runFrom re (text m) textpos
  end.

End Regexp2.

Import Regexp2.

(** ** The five patterns of [main.go]

    In the comments that quote a pattern, [Q] stands for the double-quote
    character. *)

(** [\w] and [\s] on ASCII text.  regexp2 decodes the line into runes and
    classifies runes: [\w] is the Unicode categories L, Mn, Nd and Pc, [\s]
    is [unicode.IsSpace].  On a line all of whose bytes are below 128
    ([isASCII] below) runes are bytes, [\w] is [isWord] and [\s] is
    [Strings.isSpace]; the statements that depend on which characters a
    class holds are made for such lines. *)
Definition isWord (c : ascii) : bool :=
  let n := nat_of_ascii c in
  ((48 <=? n) && (n <=? 57) || (65 <=? n) && (n <=? 90)
   || (97 <=? n) && (n <=? 122) || (n =? 95))%nat.

Definition isAlpha_ (c : ascii) : bool :=
  let n := nat_of_ascii c in
  ((65 <=? n) && (n <=? 90) || (97 <=? n) && (n <=? 122) || (n =? 95))%nat.

Definition is_ (c : ascii) (d : ascii) : bool := Ascii.eqb c d.

Definition quote : regex := Class (fun c => is_ dq_c c || is_ sq_c c).
Definition ws : regex := Class Strings.isSpace.
(** [[\w\s-]] *)
Definition nameChar : regex :=
  Class (fun c => isWord c || Strings.isSpace c || is_ "-" c).
(** [[\w\s.-]] *)
Definition selectorChar : regex :=
  Class (fun c => isWord c || Strings.isSpace c || is_ "." c || is_ "-" c).
(** [[^Q'\s]] *)
Definition tokenChar : regex :=
  Class (fun c => negb (is_ dq_c c || is_ sq_c c || Strings.isSpace c)).

(** [class\s*=\s*[Q']?([\w\s-]+)[Q']?] *)
Definition htmlClassRegex : regex :=
  Seq [Str "class"; Many ws; Lit "="; Many ws; Opt quote;
       Grp (Many1 nameChar); Opt quote].

(** [\.[a-zA-Z_][\w-]*] *)
Definition cssClassRegex : regex :=
  Seq [Lit "."; Class isAlpha_; Many (Class (fun c => isWord c || is_ "-" c))].

(** [querySelector(All)?\(\s*[Q']\.([\w\s.-]+)[Q']\s*\)] *)
Definition jsQuerySelectorRegex : regex :=
  Seq [Str "querySelector"; Opt (Grp (Str "All")); Lit "("; Many ws; quote;
       Lit "."; Grp (Many1 selectorChar); quote; Many ws; Lit ")"].

(** [classList\.(add|remove|toggle)\(\s*[Q']([\w\s-]+)[Q'](?:,\s*[Q']([\w\s-]+)[Q'])*\s*\)] *)
Definition jsClassListRegex : regex :=
  Seq [Str "classList"; Lit ".";
       Grp (Or (Str "add") (Or (Str "remove") (Str "toggle")));
       Lit "("; Many ws; quote; Grp (Many1 nameChar); quote;
       Many (Seq [Lit ","; Many ws; quote; Grp (Many1 nameChar); quote]);
       Many ws; Lit ")"].

(** [className\s*=\s*[Q'](T)[Q']] with [T] the group
    [[^Q'\s]+(?:\s+[^Q'\s]+)*] *)
Definition jsClassNameRegex : regex :=
  Seq [Str "className"; Many ws; Lit "="; Many ws; quote;
       Grp (Seq [Many1 tokenChar; Many (Seq [Many1 ws; Many1 tokenChar])]);
       quote].

(** [regexp2FindAllString]: the text of every match, left to right.  Each
    match starts strictly after the start of the one before, so the loop
    runs at most [len(s) + 1] times. *)
Fixpoint findAll_go (fuel : nat) (re : regex) (m : option Match)
  : list string :=
  match m, fuel with
  | Some mt, S fuel' =>
      String_ mt :: findAll_go fuel' re (FindNextMatch re mt)
  | _, _ => []
  end.

Definition regexp2FindAllString (re : regex) (s : string) : list string :=
  findAll_go (S (String.length s)) re (FindStringMatch re s).

(** ** Go's [fmt] verb [%d] and [path/filepath.Ext] *)
Module Fmt.

Definition digit (d : Z) : ascii := ascii_of_nat (48 + Z.to_nat d).

(** [fmtInteger]: digits are produced from the least significant one,
    in front of what is already there. *)
Fixpoint fmt_go (fuel : nat) (u : Z) (acc : string) : string :=
  match fuel with
  | O => acc
  | S fuel' =>
      if 10 <=? u
      then fmt_go fuel' (u / 10) (String (digit (u mod 10)) acc)
      else String (digit u) acc
  end.

Definition fmt_u (u : Z) : string :=
  fmt_go (S (Z.to_nat (Z.log2 u))) u EmptyString.

(** [Sprintf("%d", n)] *)
Definition Sprintf_d (n : Z) : string :=
  if n <? 0 then String "-" (fmt_u (- n)) else fmt_u n.

End Fmt.

Module Filepath.

(** [Ext]: the suffix that starts at the last dot of the last path
    element; [cur] is that suffix for the part already read. *)
Fixpoint ext_go (path cur : string) : string :=
  match path with
  | EmptyString => cur
  | String a rest =>
      if Ascii.eqb a "/" then ext_go rest EmptyString
      else if Ascii.eqb a "." then ext_go rest path
      else ext_go rest cur
  end.

Definition Ext (path : string) : string := ext_go path EmptyString.

End Filepath.

(** ** main.go: the collection pass *)

Record ClassUsage : Type := mkClassUsage { name : string; count : Z }.

(** Go's [int] is 64 bits wide. *)
Definition wrap64 (z : Z) : Z := (z + 2 ^ 63) mod 2 ^ 64 - 2 ^ 63.

(** [classCount[className]++]; a missing key reads as 0. *)
Definition increment (classCount : gmap string Z) (className : string)
  : gmap string Z :=
  <[className := wrap64 (default 0 (classCount !! className) + 1)]> classCount.

(** A [for ... range] loop whose body may panic. *)
Fixpoint forEach {A S : Type} (body : S -> A -> option S) (l : list A) (s : S)
  : option S :=
  match l with
  | [] => Some s
  | x :: rest => s' ← body s x; forEach body rest s'
  end.

Definition isSupportedFile (path : string) : bool :=
  let ext := Filepath.Ext path in
  String.eqb ext ".html" || String.eqb ext ".css" || String.eqb ext ".js"
  || String.eqb ext ".php".

Definition extractClassesFromHTML (line : string) (classCount : gmap string Z)
  : gmap string Z :=
  let matches := regexp2FindAllString htmlClassRegex line in
  foldl (fun classCount match_ =>
           let classes := Strings.Fields match_ in
           foldl increment classCount classes)
        classCount matches.

Definition extractClassesFromCSS (line : string) (classCount : gmap string Z)
  : option (gmap string Z) :=
  let matches := regexp2FindAllString cssClassRegex line in
  forEach (fun classCount match_ =>
             className ← Strings.slice_from match_ 1;
             Some (increment classCount className))
          matches classCount.

Definition extractClassesFromClassList (match_ : string) : option (list string) :=
  insideParens ← Strings.slice match_ (Strings.Index match_ "(" + 1)
                                      (Strings.LastIndex match_ ")");
  let classNames := Strings.Split insideParens "," in
  Some (foldl (fun classes class =>
                 let trimmedClass := Strings.TrimSpace class in
                 let trimmedClass := Strings.Trim trimmedClass (dq +:+ sq) in
                 classes ++ [trimmedClass])
              [] classNames).

(** [classes[1:]] *)
Definition rest1 {A : Type} (classes : list A) : option (list A) :=
  match classes with
  | [] => None
  | _ :: rest => Some rest
  end.

Definition extractClassesFromJS (line : string) (classCount : gmap string Z)
  : option (gmap string Z) :=
  let queryMatches := regexp2FindAllString jsQuerySelectorRegex line in
  classCount ← forEach (fun classCount match_ =>
                          let classes := Strings.Split match_ "." in
                          names ← rest1 classes;
                          Some (foldl increment classCount names))
                       queryMatches classCount;
  let classListMatches := regexp2FindAllString jsClassListRegex line in
  classCount ← forEach (fun classCount match_ =>
                          classes ← extractClassesFromClassList match_;
                          Some (foldl increment classCount classes))
                       classListMatches classCount;
  let classNameMatches := regexp2FindAllString jsClassNameRegex line in
  Some (foldl (fun classCount match_ =>
                 let classes := Strings.Fields match_ in
                 foldl increment classCount classes)
              classCount classNameMatches).

(** ** main.go: the short names *)

(** [string(firstChar)] for a rune in the ASCII range. *)
Definition string_of_rune (r : Z) : string :=
  String (ascii_of_nat (Z.to_nat r)) EmptyString.

Definition generateShortClassName (index : Z) : string :=
  let firstChar := 97 + Z.rem index 26 in
  let second := Z.quot index 26 in
  if second =? 0 then string_of_rune firstChar
  else
    let secondChar :=
      if 9 <? second then "a" +:+ Fmt.Sprintf_d (second - 10)
      else Fmt.Sprintf_d second in
    string_of_rune firstChar +:+ secondChar.

(** [for i, class := range classes], from index [i] on. *)
Fixpoint generateClassMap_go (i : Z) (classes : list ClassUsage)
    (classMap : gmap string string) : gmap string string :=
  match classes with
  | [] => classMap
  | class :: rest =>
      generateClassMap_go (i + 1) rest
        (<[name class := generateShortClassName i]> classMap)
  end.

Definition generateClassMap (classes : list ClassUsage) : gmap string string :=
  generateClassMap_go 0 classes ∅.

(** ** main.go: ranking *)

(** [sort.Slice] promises a permutation of the slice that is sorted for
    [less]; it is not stable, and which sorted permutation comes out is the
    library's business.  Current Go runs the insertion sort below on
    slices of at most 12 elements. *)
Module Sort.

Section InsertionSort.
Context {A : Type} (less : A -> A -> bool).

(** Move [x] to the left while it is less than its left neighbour;
    [sorted_rev] is the part to the left of [x], nearest element
    first. *)
Fixpoint sink (x : A) (sorted_rev : list A) : list A :=
  match sorted_rev with
  | [] => [x]
  | y :: rest => if less x y then y :: sink x rest else x :: y :: rest
  end.

Definition insertionSort (data : list A) : list A :=
  reverse (foldl (fun sorted_rev x => sink x sorted_rev) [] data).
End InsertionSort.

Definition notLess {A : Type} (less : A -> A -> bool) (a b : A) : Prop :=
  less a b = false.

(** What a caller may rely on: no later element is less than an earlier
    one. *)
Definition sorted_for {A : Type} (less : A -> A -> bool) (l : list A) : Prop :=
  forall (i j : nat) (x y : A),
    (i < j)%nat -> l !! i = Some x -> l !! j = Some y -> less y x = false.

End Sort.

Definition byCountDesc (a b : ClassUsage) : bool := count b <? count a.

Section Rank.
(** The sorting routine behind [sort.Slice], with its contract for the
    comparison of [rankClasses]. *)
Variable sort_Slice : list ClassUsage -> list ClassUsage.
Hypothesis sort_Slice_perm : forall l, sort_Slice l ≡ₚ l.
Hypothesis sort_Slice_sorted :
  forall l, Sort.sorted_for byCountDesc (sort_Slice l).

(** [iteration] is the order in which [range classCount] yields the
    entries of the map. *)
Definition rankClasses (iteration : list (string * Z)) : list ClassUsage :=
  let classes :=
    foldl (fun classes kv => classes ++ [mkClassUsage kv.1 kv.2]) [] iteration in
  sort_Slice classes.
End Rank.

(** ** main.go: the rewrite pass *)

Fixpoint uniqueClasses_go (classes : list string) (seen : gset string)
    (unique : list string) : list string :=
  match classes with
  | [] => unique
  | class :: rest =>
      if decide (class ∈ seen) then uniqueClasses_go rest seen unique
      else uniqueClasses_go rest ({[class]} ∪ seen) (unique ++ [class])
  end.

Definition uniqueClasses (classes : list string) : list string :=
  uniqueClasses_go classes ∅ [].

(** [if newClass, found := classMap[className]; found { classes[i] = newClass }] *)
Definition rename (classMap : gmap string string) (className : string) : string :=
  match classMap !! className with
  | Some newClass => newClass
  | None => className
  end.

Definition updateCSSClasses (line : string) (classMap : gmap string string)
  : option string :=
  let updatedLine := line in
  let matches := regexp2FindAllString cssClassRegex updatedLine in
  forEach (fun updatedLine match_ =>
             key ← Strings.slice_from match_ 1;
             match classMap !! key with
             | Some newClass =>
                 Some (Strings.Replace updatedLine match_ ("." +:+ newClass) 1)
             | None => Some updatedLine
             end)
          matches updatedLine.

Definition updateHTMLClasses (line : string) (classMap : gmap string string)
    (allowDuplicates : bool) : string :=
  let updatedLine := line in
  let matches := regexp2FindAllString htmlClassRegex updatedLine in
  foldl (fun updatedLine match_ =>
           let originalClasses := Strings.Fields match_ in
           let newClasses := rename classMap <$> originalClasses in
           let newClasses :=
             if negb allowDuplicates then uniqueClasses newClasses
             else newClasses in
           Strings.Replace updatedLine match_
             ("class=" +:+ dq +:+ Strings.Join newClasses " " +:+ dq) 1)
        updatedLine matches.

(** The three loops of [updateJSClasses], each on the line as the loop
    before it left it. *)
Definition updateJSQuerySelector (line : string) (classMap : gmap string string)
  : option string :=
  let queryMatches := regexp2FindAllString jsQuerySelectorRegex line in
  forEach (fun updatedLine match_ =>
             let parts := Strings.SplitN match_ "." 2 in
             match parts with
             | [part0; part1] =>
                 if Strings.HasSuffix part1 (dq +:+ ")")
                 then
                   inner ← Strings.slice_to part1 (Strings.len part1 - 2);
                   let classes := Strings.Split inner "." in
                   let classes := rename classMap <$> classes in
                   Some (Strings.Replace updatedLine match_
                           (part0 +:+ "." +:+ Strings.Join classes "."
                            +:+ dq +:+ ")") 1)
                 else Some updatedLine
             | _ => Some updatedLine
             end)
          queryMatches line.

Definition updateJSClassList (line : string) (classMap : gmap string string)
  : option string :=
  let classListMatches := regexp2FindAllString jsClassListRegex line in
  forEach (fun updatedLine match_ =>
             let start := Strings.Index match_ "(" + 1 in
             let end_ := Strings.LastIndex match_ ")" in
             inside ← Strings.slice match_ start end_;
             let classNames := Strings.Split inside "," in
             let classNames :=
               (fun className =>
                  let className :=
                    Strings.Trim className (dq +:+ sq +:+ " ") in
                  dq +:+ rename classMap className +:+ dq) <$> classNames in
             head ← Strings.slice_to match_ start;
             tail ← Strings.slice_from match_ end_;
             Some (Strings.Replace updatedLine match_
                     (head +:+ Strings.Join classNames ", " +:+ tail) 1))
          classListMatches line.

Definition updateJSClassName (line : string) (classMap : gmap string string)
  : option string :=
  let classNameMatches := regexp2FindAllString jsClassNameRegex line in
  forEach (fun updatedLine match_ =>
             let start := Strings.Index match_ "=" + 1 in
             assigned ← Strings.slice_from match_ start;
             let classes :=
               Strings.Fields (Strings.Trim assigned (" " +:+ dq +:+ sq +:+ "`")) in
             let classes := rename classMap <$> classes in
             Some (Strings.Replace updatedLine match_
                     ("className = " +:+ sq +:+ Strings.Join classes " " +:+ sq) 1))
          classNameMatches line.

Definition updateJSClasses (line : string) (classMap : gmap string string)
  : option string :=
  updatedLine ← updateJSQuerySelector line classMap;
  updatedLine ← updateJSClassList updatedLine classMap;
  updateJSClassName updatedLine classMap.

(** ** Go's [bufio.Scanner] with the default split function [ScanLines] *)
Module Bufio.

(** [MaxScanTokenSize = 64 * 1024]: a line that does not fit the buffer
    together with its terminator ends the scan with [ErrTooLong]. *)
Definition MaxScanTokenSize : Z := 65536.

Definition dropCR (data : string) : string :=
  if Strings.HasSuffix data CR
  then Strings.take (String.length data - 1) data
  else data.

(** The text before the first LF, and what follows that LF if there is
    one. *)
Fixpoint breakLine (data : string) : string * option string :=
  match data with
  | EmptyString => (EmptyString, None)
  | String a rest =>
      if Ascii.eqb a lf_c then (EmptyString, Some rest)
      else let '(l, r) := breakLine rest in (String a l, r)
  end.

(** One call of [Scan] on the unread input: the token and the input
    left, or [None] when [Scan] returns false (end of input, or a line
    that is too long). *)
Definition Scan (unread : string) : option (string * string) :=
  match unread with
  | EmptyString => None
  | _ =>
      let '(l, r) := breakLine unread in
      if MaxScanTokenSize <=? Strings.len l then None
      else Some (dropCR l, default EmptyString r)
  end.

(** The input cut at every LF; text after the last LF is a line of its
    own when it is not empty. *)
Fixpoint rawLines (s : string) : list string :=
  match s with
  | EmptyString => []
  | String a rest =>
      if Ascii.eqb a lf_c then EmptyString :: rawLines rest
      else match rawLines rest with
           | [] => [String a EmptyString]
           | l :: ls => String a l :: ls
           end
  end.

Fixpoint whileFits (ls : list string) : list string :=
  match ls with
  | [] => []
  | l :: rest =>
      if MaxScanTokenSize <=? Strings.len l then []
      else l :: whileFits rest
  end.

(** The tokens that successive calls of [Scan] return. *)
Definition tokens (input : string) : list string :=
  dropCR <$> whileFits (rawLines input).

End Bufio.

(** ** main.go: a file of the rewrite pass

    The file system is a map from paths to contents.  [os.Open] fails on a
    path that is not there, and the function returns; [os.Create] is taken
    to succeed; the source drops the errors of the scanner, of the writer
    and of [os.Rename]. *)

Definition updateLine (path line : string) (classMap : gmap string string)
    (allowDuplicates : bool) : option string :=
  if String.eqb (Filepath.Ext path) ".css" then updateCSSClasses line classMap
  else if String.eqb (Filepath.Ext path) ".js" then updateJSClasses line classMap
  else Some (updateHTMLClasses line classMap allowDuplicates).

(** [renameClassesInFile], with what the operating system answers:
    [created] says whether [os.Create(tempPath)] succeeds, [renamed]
    whether [os.Rename(tempPath, path)] does.  The files that [os.Open]
    opens are the keys of [fs].  When the temporary file cannot be created
    the function returns at once; when it cannot be renamed, the error is
    not looked at and the temporary file stays, with the text written. *)
Definition renameClassesInFileWith (created renamed : bool) (path : string)
    (classMap : gmap string string) (allowDuplicates : bool)
    (fs : gmap string string) : option (gmap string string) :=
  let tempPath := path +:+ ".tmp" in
  match fs !! path with
  | None => Some fs
  | Some input =>
      if created then
        let fs := <[tempPath := EmptyString]> fs in
        written ← forEach (fun written line =>
                             updatedLine ← updateLine path line classMap allowDuplicates;
                             Some (written +:+ (updatedLine +:+ LF)))
                          (Bufio.tokens input) EmptyString;
        if renamed then Some (<[path := written]> (delete tempPath fs))
        else Some (<[tempPath := written]> fs)
      else Some fs
  end.

(** The call in which both succeed. *)
Definition renameClassesInFile : string -> gmap string string -> bool ->
    gmap string string -> option (gmap string string) :=
  renameClassesInFileWith true true.

(** [processFile], for a file that could be opened. *)
Definition processFile (path input : string) (classCount : gmap string Z)
  : option (gmap string Z) :=
  forEach (fun classCount line =>
             let ext := Filepath.Ext path in
             if String.eqb ext ".css" then extractClassesFromCSS line classCount
             else if String.eqb ext ".js" then extractClassesFromJS line classCount
             else Some (extractClassesFromHTML line classCount))
          (Bufio.tokens input) classCount.

(** * Definitions used to state the properties *)

(** Reading a decimal numeral back. *)
Fixpoint atoi_go (s : string) (acc : Z) : Z :=
  match s with
  | EmptyString => acc
  | String c s' => atoi_go s' (acc * 10 + (Z.of_nat (nat_of_ascii c) - 48))
  end.

(** Reading a short name back: the index it was generated from. *)
Definition shortNameIndex (s : string) : Z :=
  match s with
  | EmptyString => 0
  | String c rest =>
      Z.of_nat (nat_of_ascii c) - 97
      + 26 * match rest with
             | EmptyString => 0
             | String c' ds =>
                 if Ascii.eqb c' "a" then 10 + atoi_go ds 0 else atoi_go rest 0
             end
  end.

(** The class names of a stylesheet line: the identifiers of its
    [.identifier] spans, as both passes read them ([match[1:]]). *)
Definition cssClassNames (line : string) : list string :=
  omap (fun match_ => Strings.slice_from match_ 1)
       (regexp2FindAllString cssClassRegex line).

(** The class names that the rewrite pass reads in the [querySelector]
    calls of a script line: the dotted segments between the first dot of
    a call and its closing [Q)]. *)
Definition querySelectorNames (line : string) : list string :=
  mjoin ((fun match_ =>
            match Strings.SplitN match_ "." 2 with
            | [_; part1] =>
                if Strings.HasSuffix part1 (dq +:+ ")")
                then match Strings.slice_to part1 (Strings.len part1 - 2) with
                     | Some inner => Strings.Split inner "."
                     | None => []
                     end
                else []
            | _ => []
            end) <$> regexp2FindAllString jsQuerySelectorRegex line).

(** [m] is the text of a match of [re] somewhere in [line]. *)
Definition isMatchOf (re : regex) (line m : string) : Prop :=
  exists (i n : nat),
    match_here re (Strings.drop i line) = Some n
    /\ m = Strings.take n (Strings.drop i line).

(** The text of a file, given by its lines, each with its ending (CRLF
    when the flag is set, LF otherwise), and by the text [last] after the
    last line ending. *)
Definition lineEnding (crlf : bool) : string := if crlf then CR +:+ LF else LF.

Fixpoint fileText (lines : list (string * bool)) (last : string) : string :=
  match lines with
  | [] => last
  | (l, crlf) :: rest => l +:+ lineEnding crlf +:+ fileText rest last
  end.

Fixpoint containsChar (c : ascii) (s : string) : bool :=
  match s with
  | EmptyString => false
  | String a s' => Ascii.eqb a c || containsChar c s'
  end.

(** A line that, with the CR of its ending, fits the scanner's buffer;
    its text has no LF, and no CR of its own in front of a bare LF. *)
Definition lineFits (line : string * bool) : bool :=
  let '(l, crlf) := line in
  negb (containsChar lf_c l)
  && (Strings.len l + (if crlf then 1 else 0) <? Bufio.MaxScanTokenSize)
  && (crlf || negb (Strings.HasSuffix l CR)).

Definition lastFits (last : string) : bool :=
  negb (containsChar lf_c last) && (Strings.len last <? Bufio.MaxScanTokenSize).

(** The lines that the scanner reads from such a file. *)
Definition linesRead (lines : list (string * bool)) (last : string)
  : list string :=
  lines.*1 ++ match last with
              | EmptyString => []
              | _ => [Bufio.dropCR last]
              end.

(** Every line followed by one LF. *)
Fixpoint writeLines (ls : list string) : string :=
  match ls with
  | [] => EmptyString
  | l :: rest => l +:+ LF +:+ writeLines rest
  end.

(** The decimal numeral of the Standard Library. *)
Definition decimal (n : Z) : string :=
  NilEmpty.string_of_uint (Nat.to_uint (Z.to_nat n)).

(** The short name as the specification words it: the letter
    [chr('a' + i mod 26)], and after it nothing in tier 0, the tier in
    decimal up to tier 9, and [a] and [tier - 10] in decimal above. *)
Definition ShortName_spec (i : Z) : string :=
  let letter := String (ascii_of_nat (Z.to_nat (97 + i mod 26))) EmptyString in
  let tier := i / 26 in
  if tier =? 0 then letter
  else if tier <=? 9 then letter +:+ decimal tier
  else letter +:+ "a" +:+ decimal (tier - 10).

Definition mkDigit (d : Z) (u : uint) : uint :=
  if d =? 0 then D0 u else if d =? 1 then D1 u else if d =? 2 then D2 u
  else if d =? 3 then D3 u else if d =? 4 then D4 u else if d =? 5 then D5 u
  else if d =? 6 then D6 u else if d =? 7 then D7 u else if d =? 8 then D8 u
  else D9 u.

(** The digits of [u], least significant first. *)
Fixpoint lu_go (fuel : nat) (u : Z) : uint :=
  match fuel with
  | O => Nil
  | S fuel' =>
      if 10 <=? u then mkDigit (u mod 10) (lu_go fuel' (u / 10))
      else mkDigit u Nil
  end.

(** Whatever the engine hands to its continuation is no longer than what
    it was given. *)
Definition shrinks
    (step : string -> (string -> option string) -> option string) : Prop :=
  forall s k e, step s k = Some e ->
    exists s', k s' = Some e /\ (String.length s' <= String.length s)%nat.

(** The words of a pattern. *)
Inductive matches : regex -> string -> Prop :=
| matches_Eps : matches Eps EmptyString
| matches_Class p c : p c = true -> matches (Class p) (String c EmptyString)
| matches_Cat r1 r2 w1 w2 :
    matches r1 w1 -> matches r2 w2 -> matches (Cat r1 r2) (w1 +:+ w2)
| matches_Or_l r1 r2 w : matches r1 w -> matches (Or r1 r2) w
| matches_Or_r r1 r2 w : matches r2 w -> matches (Or r1 r2) w
| matches_Many_nil r : matches (Many r) EmptyString
| matches_Many_cons r w1 w2 :
    matches r w1 -> matches (Many r) w2 -> matches (Many r) (w1 +:+ w2).

(** The engine consumes a word of the pattern. *)
Definition consumes (r : regex)
    (step : string -> (string -> option string) -> option string) : Prop :=
  forall s k e, step s k = Some e ->
    exists w s', s = w +:+ s' /\ matches r w /\ k s' = Some e.

(** The inputs of the examples of the specification. *)
Definition exampleCounts : gmap string Z :=
  <["foo" := 5]> (<["bar" := 5]> (<["baz" := 1]> ∅)).

Definition exampleMap : gmap string string :=
  <["foo" := "a"]> (<["bar" := "b"]> ∅).

Definition divFooBarFoo : string :=
  "<div class=" +:+ dq +:+ "foo bar foo" +:+ dq +:+ ">".

(** ** main.go: the two passes of [main], and the preview

    [paths] are the files under the directory, in the order in which
    [filepath.WalkDir] visits them; the walk itself is taken to succeed. *)

(** [strings.Contains] *)
Definition Contains (s substr : string) : bool := 0 <=? Strings.Index s substr.

(** [processFile]: a file that cannot be opened is skipped. *)
Definition collectFile (path : string) (fs : gmap string string)
    (classCount : gmap string Z) : option (gmap string Z) :=
  match fs !! path with
  | None => Some classCount
  | Some input => processFile path input classCount
  end.

Definition collectPass (paths : list string) (fs : gmap string string)
    (classCount : gmap string Z) : option (gmap string Z) :=
  forEach (fun classCount path =>
             if isSupportedFile path then collectFile path fs classCount
             else Some classCount)
          paths classCount.

Definition rewritePass (paths : list string) (classMap : gmap string string)
    (allowDuplicates : bool) (fs : gmap string string)
  : option (gmap string string) :=
  forEach (fun fs path =>
             if isSupportedFile path
             then renameClassesInFile path classMap allowDuplicates fs
             else Some fs)
          paths fs.

(** [printClassMap]: one line for every entry, in the order in which
    [range classMap] yields them. *)
Definition printClassMap (iteration : list (string * string)) : string :=
  foldl (fun out kv => out +:+ (kv.1 +:+ " -> " +:+ kv.2 +:+ LF))
        EmptyString iteration.

(** [main]: what is printed, and the file system afterwards.  [rangeCount]
    and [rangeMap] give the iteration orders of the two maps. *)
Definition main (sort_Slice : list ClassUsage -> list ClassUsage)
    (rangeCount : gmap string Z -> list (string * Z))
    (rangeMap : gmap string string -> list (string * string))
    (paths : list string) (preview allowDuplicates : bool)
    (fs : gmap string string) : option (string * gmap string string) :=
  classCount ← collectPass paths fs ∅;
  let classes := rankClasses sort_Slice (rangeCount classCount) in
  let classMap := generateClassMap classes in
  if preview then Some (printClassMap (rangeMap classMap), fs)
  else fs' ← rewritePass paths classMap allowDuplicates fs;
       Some (EmptyString, fs').

(** ** The class names that the collectors count, line by line *)

Definition htmlNames (line : string) : list string :=
  mjoin (Strings.Fields <$> regexp2FindAllString htmlClassRegex line).

Definition jsNames (line : string) : list string :=
  mjoin ((fun match_ => tail (Strings.Split match_ "."))
           <$> regexp2FindAllString jsQuerySelectorRegex line)
  ++ mjoin ((fun match_ => default [] (extractClassesFromClassList match_))
              <$> regexp2FindAllString jsClassListRegex line)
  ++ mjoin (Strings.Fields <$> regexp2FindAllString jsClassNameRegex line).

Definition lineNames (path line : string) : list string :=
  if String.eqb (Filepath.Ext path) ".css" then cssClassNames line
  else if String.eqb (Filepath.Ext path) ".js" then jsNames line
  else htmlNames line.

Definition fileNames (path input : string) : list string :=
  mjoin (lineNames path <$> Bufio.tokens input).

(** The names that the collection pass counts in the files it walks. *)
Definition corpusNames (paths : list string) (fs : gmap string string)
  : list string :=
  mjoin ((fun path =>
            if isSupportedFile path
            then match fs !! path with
                 | Some input => fileNames path input
                 | None => []
                 end
            else []) <$> paths).

(** A character that is neither a path separator nor a dot. *)
Definition plainChar (c : ascii) : bool :=
  negb (Ascii.eqb c "/") && negb (Ascii.eqb c ".").

(** A character that is not white space. *)
Definition noSpace (c : ascii) : bool := negb (Strings.isSpace c).

(** The first and the last character of a string. *)
Definition headChar (s : string) : option ascii :=
  match s with
  | EmptyString => None
  | String a _ => Some a
  end.

Fixpoint lastChar (s : string) : option ascii :=
  match s with
  | EmptyString => None
  | String a EmptyString => Some a
  | String _ s' => lastChar s'
  end.

Definition isQuote (c : ascii) : bool := Ascii.eqb c dq_c || Ascii.eqb c sq_c.

(** The literal text with which every match of a line of the file at
    [path] begins: a dot in a stylesheet, [querySelector] or [class]
    (of [classList] and [className]) in a script, [class] elsewhere. *)
Definition keywords (path : string) : list string :=
  if String.eqb (Filepath.Ext path) ".css" then ["."]
  else if String.eqb (Filepath.Ext path) ".js" then ["querySelector"; "class"]
  else ["class"].

Definition noKeyword (path line : string) : bool :=
  forallb (fun kw => negb (Contains line kw)) (keywords path).

(** How often [k] is in a list of names. *)
Definition occurrences (k : string) (names : list string) : Z :=
  Z.of_nat (length (filter (fun x => x = k) names)).

(** [n] copies of a character. *)
Definition repeatChar (c : ascii) (n : Z) : string :=
  Z.iter n (String c) EmptyString.

Fixpoint allChars (p : ascii -> bool) (s : string) : bool :=
  match s with
  | EmptyString => true
  | String a s' => p a && allChars p s'
  end.

(** ASCII text: every byte is below 128. *)
Definition isASCII (s : string) : bool :=
  allChars (fun c => (nat_of_ascii c <? 128)%nat) s.

(** The letters [a] to [z], and the decimal digits. *)
Definition isLower (c : ascii) : bool :=
  let n := nat_of_ascii c in ((97 <=? n) && (n <=? 122))%nat.

Definition isDigit (c : ascii) : bool :=
  let n := nat_of_ascii c in ((48 <=? n) && (n <=? 57))%nat.

(** The names that the second and the third loop of [updateJSClasses]
    look up in the class map, on the line that the loop works on: the
    trimmed arguments of the [classList] calls, and the fields of the
    text assigned to [className]. *)
Definition classListNames (line : string) : list string :=
  mjoin ((fun match_ =>
            match Strings.slice match_ (Strings.Index match_ "(" + 1)
                    (Strings.LastIndex match_ ")") with
            | Some inside =>
                (fun className => Strings.Trim className (dq +:+ sq +:+ " "))
                  <$> Strings.Split inside ","
            | None => []
            end) <$> regexp2FindAllString jsClassListRegex line).

Definition classNameNames (line : string) : list string :=
  mjoin ((fun match_ =>
            match Strings.slice_from match_ (Strings.Index match_ "=" + 1) with
            | Some assigned =>
                Strings.Fields
                  (Strings.Trim assigned (" " +:+ dq +:+ sq +:+ "`"))
            | None => []
            end) <$> regexp2FindAllString jsClassNameRegex line).

(** The names that the rewriter of the file's dialect looks up in the
    class map on a line.  In a script the third loop works on the line as
    the second loop left it; when no name is a key, that is the line as
    the second loop leaves it under the empty map. *)
Definition namesLookedUp (path line : string) : list string :=
  if String.eqb (Filepath.Ext path) ".css" then cssClassNames line
  else if String.eqb (Filepath.Ext path) ".js" then
    querySelectorNames line ++ classListNames line
    ++ classNameNames (default line (updateJSClassList line ∅))
  else htmlNames line.

(** * Examples for the library models *)

Example Fields_ex :
  Strings.Fields "  a  bc d " = ["a"; "bc"; "d"].
Proof. reflexivity. Qed.

Example Split_ex :
  Strings.Split ".a..b" "." = [EmptyString; "a"; EmptyString; "b"]
  /\ Strings.SplitN "x.a.b" "." 2 = ["x"; "a.b"]
  /\ Strings.Split EmptyString "." = [EmptyString].
Proof. repeat split; reflexivity. Qed.

Example Replace_ex :
  Strings.Replace "abcabc" "bc" "X" 1 = "aXabc"
  /\ Strings.Replace "abcabc" "bc" "X" (-1) = "aXaX"
  /\ Strings.Replace "ab" EmptyString "-" (-1) = "-a-b-"
  /\ Strings.Replace "ab" EmptyString "-" 1 = "-ab".
Proof. repeat split; reflexivity. Qed.

Example Trim_ex :
  Strings.Trim (" " +:+ sq +:+ "a b" +:+ dq +:+ " ") (dq +:+ sq +:+ " ") = "a b"
  /\ Strings.LastIndex "f(a)(b)" ")" = 6 /\ Strings.Index "f(a)(b)" "(" = 1
  /\ Strings.Index "abc" "z" = -1.
Proof. repeat split; reflexivity. Qed.

Example findAll_css :
  regexp2FindAllString cssClassRegex ".foo:hover > .b-1 { margin: 0.5em; } .9x"
  = [".foo"; ".b-1"].
Proof. vm_compute. reflexivity. Qed.

Example findAll_html :
  regexp2FindAllString htmlClassRegex
    ("<p class = " +:+ sq +:+ "x y" +:+ sq +:+ " id=k><i class=z>")
  = ["class = " +:+ sq +:+ "x y" +:+ sq; "class=z"].
Proof. vm_compute. reflexivity. Qed.

Example findAll_js :
  regexp2FindAllString jsClassListRegex
    ("e.classList.add(" +:+ dq +:+ "a" +:+ dq +:+ ", " +:+ sq +:+ "b" +:+ sq
     +:+ "); f.classList.toggle( " +:+ dq +:+ "c" +:+ dq +:+ " )")
  = ["classList.add(" +:+ dq +:+ "a" +:+ dq +:+ ", " +:+ sq +:+ "b" +:+ sq +:+ ")";
     "classList.toggle( " +:+ dq +:+ "c" +:+ dq +:+ " )"].
Proof. vm_compute. reflexivity. Qed.

Example Sprintf_d_ex :
  Fmt.Sprintf_d 0 = "0" /\ Fmt.Sprintf_d 9 = "9" /\ Fmt.Sprintf_d 10 = "10"
  /\ Fmt.Sprintf_d 1234567890 = "1234567890" /\ Fmt.Sprintf_d (-42) = "-42".
Proof. repeat split; reflexivity. Qed.

Example Ext_ex :
  Filepath.Ext "a.b/c.min.css" = ".css" /\ Filepath.Ext "a.b/c" = EmptyString
  /\ Filepath.Ext "x.js" = ".js".
Proof. repeat split; reflexivity. Qed.

Example tokens_ex :
  Bufio.tokens ("a" +:+ CR +:+ LF +:+ LF +:+ "b" +:+ CR +:+ CR +:+ LF +:+ "c")
  = ["a"; EmptyString; "b" +:+ CR; "c"]
  /\ Bufio.tokens EmptyString = [] /\ Bufio.tokens LF = [EmptyString]
  /\ Bufio.tokens (LF +:+ CR) = [EmptyString; EmptyString].
Proof. repeat split; reflexivity. Qed.

(** The examples of the specification that the code reproduces: the
    stylesheet selector with a pseudo-class, and the three script idioms. *)
Example updateCSSClasses_hover :
  updateCSSClasses ".foo:hover { color: red; }" (<["foo" := "a"]> ∅)
  = Some ".a:hover { color: red; }".
Proof. vm_compute. reflexivity. Qed.

Example updateJSClasses_idioms :
  updateJSClasses
    ("el.classList.add(" +:+ dq +:+ "foo" +:+ dq +:+ ", " +:+ dq +:+ "bar" +:+ dq +:+ ")")
    exampleMap
  = Some ("el.classList.add(" +:+ dq +:+ "a" +:+ dq +:+ ", " +:+ dq +:+ "b" +:+ dq +:+ ")")
  /\ updateJSClasses
       ("document.querySelector(" +:+ dq +:+ ".foo.bar" +:+ dq +:+ ")") exampleMap
     = Some ("document.querySelector(" +:+ dq +:+ ".a.b" +:+ dq +:+ ")")
  /\ updateJSClasses ("el.className = " +:+ dq +:+ "foo bar" +:+ dq) exampleMap
     = Some ("el.className = " +:+ sq +:+ "a b" +:+ sq).
Proof. repeat split; vm_compute; reflexivity. Qed.

(** * Properties of the library models *)

Local Arguments String.append !s1 s2 : simpl nomatch.

(** ** Strings *)
Section StringFacts.
Implicit Types s t u : string.

Lemma str_app_nil_r s : s +:+ EmptyString = s.
Proof. induction s as [|a s IH]; simpl; [done | by rewrite IH]. Qed.

Lemma str_app_assoc s t u : (s +:+ t) +:+ u = s +:+ (t +:+ u).
Proof. induction s as [|a s IH]; simpl; [done | by rewrite IH]. Qed.

Lemma str_length_app s t :
  String.length (s +:+ t) = (String.length s + String.length t)%nat.
Proof. induction s as [|a s IH]; simpl; [done | by rewrite IH]. Qed.

Lemma str_take_drop n s : Strings.take n s +:+ Strings.drop n s = s.
Proof.
  revert s; induction n as [|n IH]; intros [|a s]; simpl; try done.
  by rewrite IH.
Qed.

Lemma str_length_take n s :
  String.length (Strings.take n s) = (n `min` String.length s)%nat.
Proof.
  revert s; induction n as [|n IH]; intros [|a s]; simpl; try done.
  by rewrite IH.
Qed.

Lemma str_length_drop n s :
  String.length (Strings.drop n s) = (String.length s - n)%nat.
Proof.
  revert s; induction n as [|n IH]; intros [|a s]; simpl; try done.
Qed.

Lemma str_take_app_length s t : Strings.take (String.length s) (s +:+ t) = s.
Proof. induction s as [|a s IH]; simpl; [by destruct t | by rewrite IH]. Qed.

Lemma str_drop_app_length s t : Strings.drop (String.length s) (s +:+ t) = t.
Proof. induction s as [|a s IH]; simpl; done. Qed.

Lemma str_drop_drop n m s :
  Strings.drop n (Strings.drop m s) = Strings.drop (m + n) s.
Proof.
  revert s; induction m as [|m IH]; intros s; simpl; [done|].
  destruct s as [|a s]; [by destruct n | apply IH].
Qed.

Lemma str_drop_String n s a t :
  Strings.drop n s = String a t -> Strings.drop (S n) s = t.
Proof.
  revert s; induction n as [|n IH]; intros [|b s] H; simpl in *; try done.
  - by injection H.
  - by apply IH.
Qed.
End StringFacts.

(** ** The decimal digits of [%d] *)
Section FmtFacts.

Lemma digit_value d :
  0 <= d <= 9 -> Z.of_nat (nat_of_ascii (Fmt.digit d)) - 48 = d.
Proof.
  intros Hd. unfold Fmt.digit. rewrite nat_ascii_embedding; lia.
Qed.

Lemma atoi_fmt_go fuel u acc :
  0 <= u < 2 ^ Z.of_nat fuel ->
  atoi_go (Fmt.fmt_go fuel u acc) 0 = atoi_go acc u.
Proof.
  revert u acc. induction fuel as [|fuel IH]; intros u acc Hu.
  - simpl in *. by replace u with 0 by lia.
  - simpl. destruct (Z.leb_spec 10 u) as [Hge|Hlt].
    + rewrite IH.
      * simpl. rewrite digit_value by (pose proof (Z.mod_pos_bound u 10); lia).
        f_equal. pose proof (Z.div_mod u 10). lia.
      * rewrite Nat2Z.inj_succ, Z.pow_succ_r in Hu by lia.
        split; [apply Z.div_pos; lia | apply Z.div_lt_upper_bound; lia].
    + simpl. rewrite digit_value by lia. f_equal.
Qed.

Lemma fmt_u_fuel u :
  0 <= u -> 0 <= u < 2 ^ Z.of_nat (S (Z.to_nat (Z.log2 u))).
Proof.
  intros Hu. split; [done|].
  rewrite Nat2Z.inj_succ, Z2Nat.id by apply Z.log2_nonneg.
  destruct (Z.eq_dec u 0) as [->|Hne]; [done|].
  apply Z.log2_spec; lia.
Qed.

Lemma atoi_fmt_u u : 0 <= u -> atoi_go (Fmt.fmt_u u) 0 = u.
Proof.
  intros Hu. unfold Fmt.fmt_u. rewrite atoi_fmt_go; [done|].
  by apply fmt_u_fuel.
Qed.

Lemma fmt_u_inj u v : 0 <= u -> 0 <= v -> Fmt.fmt_u u = Fmt.fmt_u v -> u = v.
Proof.
  intros Hu Hv E. rewrite <- (atoi_fmt_u u), <- (atoi_fmt_u v) by done.
  by rewrite E.
Qed.

Lemma fmt_u_digit u :
  0 <= u < 10 -> Fmt.fmt_u u = String (Fmt.digit u) EmptyString.
Proof.
  intros Hu. unfold Fmt.fmt_u. simpl.
  destruct (Z.leb_spec 10 u); [lia | done].
Qed.

Lemma length_fmt_go_ge fuel u acc :
  (String.length acc <= String.length (Fmt.fmt_go fuel u acc))%nat.
Proof.
  revert u acc. induction fuel as [|fuel IH]; intros u acc; simpl; [done|].
  destruct (10 <=? u); [|simpl; lia].
  etrans; [|apply IH]. simpl; lia.
Qed.

Lemma length_fmt_go_gt fuel u acc :
  (String.length acc < String.length (Fmt.fmt_go (S fuel) u acc))%nat.
Proof.
  simpl. destruct (10 <=? u); [|simpl; lia].
  eapply Nat.lt_le_trans; [|apply length_fmt_go_ge]. simpl; lia.
Qed.

Lemma length_fmt_go_mono f1 f2 u v acc1 acc2 :
  0 <= u <= v -> v < 2 ^ Z.of_nat f2 -> (1 <= f1)%nat -> (1 <= f2)%nat ->
  (String.length acc1 <= String.length acc2)%nat ->
  (String.length (Fmt.fmt_go f1 u acc1)
   <= String.length (Fmt.fmt_go f2 v acc2))%nat.
Proof.
  revert f2 u v acc1 acc2.
  induction f1 as [|f1 IH]; intros f2 u v acc1 acc2 Huv Hv H1 H2 Hacc; [lia|].
  destruct f2 as [|f2]; [lia|].
  destruct (Z.leb_spec 10 u) as [Hge|Hlt].
  - assert (10 <= v) as Hv10 by lia.
    assert (1 <= v / 10) by (apply Z.div_le_lower_bound; lia).
    assert (0 <= u / 10 <= v / 10).
    { split; [apply Z.div_pos; lia | apply Z.div_le_mono; lia]. }
    assert (v / 10 < 2 ^ Z.of_nat f2).
    { rewrite Nat2Z.inj_succ, Z.pow_succ_r in Hv by lia.
      apply Z.div_lt_upper_bound; lia. }
    assert (1 <= f2)%nat.
    { destruct f2; [simpl in *; lia | lia]. }
    simpl. destruct (Z.leb_spec 10 u); [|lia].
    destruct (Z.leb_spec 10 v); [|lia].
    destruct f1 as [|f1].
    + simpl. etrans; [|apply length_fmt_go_ge]. simpl; lia.
    + apply IH; [done | done | lia | done | simpl; lia].
  - transitivity (S (String.length acc2)).
    + simpl. destruct (Z.leb_spec 10 u); [lia|]. simpl; lia.
    + apply length_fmt_go_gt.
Qed.

Lemma length_fmt_u_mono u v :
  0 <= u <= v ->
  (String.length (Fmt.fmt_u u) <= String.length (Fmt.fmt_u v))%nat.
Proof.
  intros Huv. unfold Fmt.fmt_u.
  apply length_fmt_go_mono; [done | apply fmt_u_fuel; lia | lia | lia | done].
Qed.

Lemma length_fmt_u_pos u : (1 <= String.length (Fmt.fmt_u u))%nat.
Proof.
  unfold Fmt.fmt_u.
  pose proof (length_fmt_go_gt (Z.to_nat (Z.log2 u)) u EmptyString). simpl in *. lia.
Qed.

Lemma Sprintf_d_nonneg n : 0 <= n -> Fmt.Sprintf_d n = Fmt.fmt_u n.
Proof. intros Hn. unfold Fmt.Sprintf_d. destruct (Z.ltb_spec n 0); [lia|done]. Qed.
End FmtFacts.

(** ** Short names *)
Section ShortNames.

Lemma generateShortClassName_eq i :
  0 <= i ->
  generateShortClassName i =
    String (ascii_of_nat (Z.to_nat (97 + i mod 26)))
      (if i / 26 =? 0 then EmptyString
       else if i / 26 <=? 9 then Fmt.fmt_u (i / 26)
            else String "a" (Fmt.fmt_u (i / 26 - 10))).
Proof.
  intros Hi. unfold generateShortClassName, string_of_rune.
  rewrite Z.rem_mod_nonneg, Z.quot_div_nonneg by lia.
  assert (0 <= i / 26) by (apply Z.div_pos; lia).
  destruct (Z.eqb_spec (i / 26) 0) as [E|E]; [done|].
  destruct (Z.ltb_spec 9 (i / 26)), (Z.leb_spec (i / 26) 9); try lia.
  - rewrite Sprintf_d_nonneg by lia. done.
  - rewrite Sprintf_d_nonneg by lia. done.
Qed.

Lemma shortNameIndex_generate i :
  0 <= i -> shortNameIndex (generateShortClassName i) = i.
Proof.
  intros Hi. rewrite generateShortClassName_eq by done.
  pose proof (Z.mod_pos_bound i 26 ltac:(lia)) as Hr.
  pose proof (Z.div_mod i 26 ltac:(lia)) as Hdm.
  assert (0 <= i / 26) as Ht by (apply Z.div_pos; lia).
  unfold shortNameIndex. rewrite nat_ascii_embedding by lia.
  destruct (Z.eqb_spec (i / 26) 0) as [E|E]; [lia|].
  destruct (Z.leb_spec (i / 26) 9) as [H9|H9].
  - rewrite fmt_u_digit by lia.
    destruct (Ascii.eqb_spec (Fmt.digit (i / 26)) "a") as [Ea|Ea].
    + apply (f_equal nat_of_ascii) in Ea. unfold Fmt.digit in Ea.
      rewrite nat_ascii_embedding in Ea by lia.
      change (nat_of_ascii "a") with 97%nat in Ea. lia.
    + simpl. rewrite digit_value by lia. lia.
  - rewrite Ascii.eqb_refl, atoi_fmt_u by lia. lia.
Qed.

Lemma generateShortClassName_inj i j :
  0 <= i -> 0 <= j ->
  generateShortClassName i = generateShortClassName j -> i = j.
Proof.
  intros Hi Hj E.
  rewrite <- (shortNameIndex_generate i), <- (shortNameIndex_generate j) by done.
  by rewrite E.
Qed.

Lemma length_generateShortClassName_mono i j :
  0 <= i <= j ->
  (String.length (generateShortClassName i)
   <= String.length (generateShortClassName j))%nat.
Proof.
  intros Hij. rewrite !generateShortClassName_eq by lia.
  assert (0 <= i / 26 <= j / 26) as Ht.
  { split; [apply Z.div_pos; lia | apply Z.div_le_mono; lia]. }
  simpl. apply le_n_S.
  destruct (Z.eqb_spec (i / 26) 0); [simpl; lia|].
  destruct (Z.eqb_spec (j / 26) 0); [lia|].
  destruct (Z.leb_spec (i / 26) 9), (Z.leb_spec (j / 26) 9); try lia.
  - rewrite !fmt_u_digit by lia. done.
  - rewrite fmt_u_digit by lia. simpl.
    pose proof (length_fmt_u_pos (j / 26 - 10)). lia.
  - simpl. apply le_n_S, length_fmt_u_mono. lia.
Qed.
End ShortNames.

Section DecimalFacts.
Ltac digit_cases d H :=
  assert (d = 0 \/ d = 1 \/ d = 2 \/ d = 3 \/ d = 4 \/ d = 5 \/ d = 6
          \/ d = 7 \/ d = 8 \/ d = 9) as H by lia;
  repeat destruct H as [-> | H]; try subst d.

Lemma string_of_mkDigit d u :
  0 <= d <= 9 ->
  NilEmpty.string_of_uint (mkDigit d u)
  = String (Fmt.digit d) (NilEmpty.string_of_uint u).
Proof. intros Hd. digit_cases d H; reflexivity. Qed.

Lemma revapp_mkDigit d u acc :
  revapp (mkDigit d u) acc = revapp u (mkDigit d acc).
Proof.
  unfold mkDigit. repeat (destruct (d =? _); [done|]). done.
Qed.

Lemma of_lu_mkDigit d u :
  0 <= d <= 9 ->
  Unsigned.of_lu (mkDigit d u) = (Z.to_nat d + 10 * Unsigned.of_lu u)%nat.
Proof. intros Hd. digit_cases d H; reflexivity. Qed.

Lemma nzhead_mkDigit d u : 1 <= d <= 9 -> nzhead (mkDigit d u) = mkDigit d u.
Proof. intros Hd. digit_cases d H; try lia; reflexivity. Qed.

Lemma mkDigit_not_Nil d u : mkDigit d u <> Nil.
Proof.
  unfold mkDigit. repeat (destruct (d =? _); [done|]). done.
Qed.

Lemma string_of_lu_go fuel u acc :
  0 <= u ->
  NilEmpty.string_of_uint (revapp (lu_go fuel u) acc)
  = Fmt.fmt_go fuel u (NilEmpty.string_of_uint acc).
Proof.
  revert u acc. induction fuel as [|fuel IH]; intros u acc Hu; simpl; [done|].
  destruct (Z.leb_spec 10 u).
  - rewrite revapp_mkDigit, IH by (apply Z.div_pos; lia).
    rewrite string_of_mkDigit; [done|].
    pose proof (Z.mod_pos_bound u 10). lia.
  - rewrite revapp_mkDigit. simpl. by rewrite string_of_mkDigit by lia.
Qed.

Lemma of_lu_lu_go fuel u :
  0 <= u < 2 ^ Z.of_nat fuel -> Unsigned.of_lu (lu_go fuel u) = Z.to_nat u.
Proof.
  revert u. induction fuel as [|fuel IH]; intros u Hu.
  - simpl in *. lia.
  - simpl. destruct (Z.leb_spec 10 u).
    + pose proof (Z.mod_pos_bound u 10 ltac:(lia)).
      pose proof (Z.div_mod u 10 ltac:(lia)).
      assert (0 <= u / 10) by (apply Z.div_pos; lia).
      rewrite of_lu_mkDigit, IH by first [lia |
        rewrite Nat2Z.inj_succ, Z.pow_succ_r in Hu by lia;
        split; [lia | apply Z.div_lt_upper_bound; lia]].
      lia.
    + rewrite of_lu_mkDigit by lia. simpl. lia.
Qed.

Lemma nzhead_lu_go fuel u acc :
  1 <= u < 2 ^ Z.of_nat fuel ->
  nzhead (revapp (lu_go fuel u) acc) = revapp (lu_go fuel u) acc
  /\ revapp (lu_go fuel u) acc <> Nil.
Proof.
  revert u acc. induction fuel as [|fuel IH]; intros u acc Hu.
  - simpl in *. lia.
  - simpl. destruct (Z.leb_spec 10 u).
    + rewrite revapp_mkDigit. apply IH.
      rewrite Nat2Z.inj_succ, Z.pow_succ_r in Hu by lia.
      split; [apply Z.div_le_lower_bound; lia | apply Z.div_lt_upper_bound; lia].
    + rewrite revapp_mkDigit. simpl.
      split; [apply nzhead_mkDigit; lia | apply mkDigit_not_Nil].
Qed.

Lemma fmt_u_decimal u : 0 <= u -> Fmt.fmt_u u = decimal u.
Proof.
  intros Hu. unfold Fmt.fmt_u, decimal.
  set (fuel := S (Z.to_nat (Z.log2 u))).
  pose proof (fmt_u_fuel u Hu) as Hfuel. fold fuel in Hfuel.
  transitivity (NilEmpty.string_of_uint (revapp (lu_go fuel u) Nil));
    [symmetry; by apply (string_of_lu_go fuel u Nil)|].
  f_equal.
  rewrite <- (of_lu_lu_go fuel u) by done.
  rewrite <- (DecimalFacts.rev_rev (lu_go fuel u)) at 2.
  rewrite <- Unsigned.of_uint_alt, Unsigned.to_of.
  fold (Decimal.rev (lu_go fuel u)). unfold unorm.
  destruct (Z.eq_dec u 0) as [->|Hne]; [done|].
  destruct (nzhead_lu_go fuel u Nil ltac:(lia)) as [Hnz Hnil].
  fold (Decimal.rev (lu_go fuel u)) in Hnz, Hnil. rewrite Hnz.
  by destruct (Decimal.rev (lu_go fuel u)).
Qed.
End DecimalFacts.

(** ** Sorting *)
Section InsertionSortFacts.
Context {A : Type} (less : A -> A -> bool).
Hypothesis less_asym : forall x y, less x y = true -> less y x = false.
Hypothesis less_negtrans :
  forall x y z, less x y = false -> less y z = false -> less x z = false.

Local Abbreviation R := (Sort.notLess less).

Lemma sink_perm x l : Sort.sink less x l ≡ₚ x :: l.
Proof.
  induction l as [|y l IH]; simpl; [done|].
  destruct (less x y); [|done].
  rewrite IH. apply Permutation_swap.
Qed.

Lemma sink_sorted x l :
  StronglySorted R l -> StronglySorted R (Sort.sink less x l).
Proof.
  induction 1 as [|y l Hl IH Hy]; simpl.
  - by repeat constructor.
  - destruct (less x y) eqn:E.
    + constructor; [done|].
      rewrite sink_perm. constructor; [by apply less_asym | done].
    + constructor; [by constructor|].
      constructor; [done|].
      eapply Forall_impl; [exact Hy|]. intros z Hz.
      by eapply less_negtrans.
Qed.

Lemma sink_all_perm acc data :
  foldl (fun sorted_rev x => Sort.sink less x sorted_rev) acc data
  ≡ₚ data ++ acc.
Proof.
  revert acc. induction data as [|x data IH]; intros acc; simpl; [done|].
  rewrite IH, sink_perm. by rewrite Permutation_middle.
Qed.

Lemma sink_all_sorted acc data :
  StronglySorted R acc ->
  StronglySorted R
    (foldl (fun sorted_rev x => Sort.sink less x sorted_rev) acc data).
Proof.
  revert acc. induction data as [|x data IH]; intros acc Hacc; simpl; [done|].
  by apply IH, sink_sorted.
Qed.

Lemma insertionSort_perm data : Sort.insertionSort less data ≡ₚ data.
Proof.
  unfold Sort.insertionSort.
  by rewrite reverse_Permutation, sink_all_perm, app_nil_r.
Qed.

Lemma StronglySorted_lookup_lt (l : list A) i j a b :
  StronglySorted R l -> (i < j)%nat -> l !! i = Some a -> l !! j = Some b ->
  R a b.
Proof.
  intros Hl. revert i j. induction Hl as [|x l Hl IH Hx]; intros i j Hij Hi Hj.
  - done.
  - destruct j as [|j]; [lia|]. destruct i as [|i]; simpl in *.
    + injection Hi as <-. rewrite Forall_forall in Hx.
      apply Hx. by eapply list_elem_of_lookup_2.
    + eapply IH; [|done..]. lia.
Qed.

Lemma insertionSort_sorted data :
  Sort.sorted_for less (Sort.insertionSort less data).
Proof.
  unfold Sort.insertionSort. intros i j x y Hij Hi Hj.
  apply reverse_lookup_Some in Hi as [Hi Hli], Hj as [Hj Hlj].
  eapply (StronglySorted_lookup_lt _ _ _ y x); [| |done..].
  - apply sink_all_sorted. constructor.
  - lia.
Qed.
End InsertionSortFacts.

Lemma byCountDesc_asym x y : byCountDesc x y = true -> byCountDesc y x = false.
Proof. unfold byCountDesc. intros ?%Z.ltb_lt. apply Z.ltb_ge. lia. Qed.

Lemma byCountDesc_negtrans x y z :
  byCountDesc x y = false -> byCountDesc y z = false -> byCountDesc x z = false.
Proof. unfold byCountDesc. rewrite !Z.ltb_ge. lia. Qed.

(** ** Ranking and the class map *)
Section ClassMapFacts.
Implicit Types (classes : list ClassUsage) (classMap : gmap string string).

Lemma generateClassMap_go_notin classes i classMap k :
  k ∉ name <$> classes ->
  generateClassMap_go i classes classMap !! k = classMap !! k.
Proof.
  revert i classMap. induction classes as [|c classes IH]; intros i m Hk; [done|].
  simpl in *. apply not_elem_of_cons in Hk as [Hne Hk].
  rewrite IH by done. by rewrite lookup_insert_ne.
Qed.

Lemma generateClassMap_go_lookup classes i classMap j c :
  NoDup (name <$> classes) -> classes !! j = Some c ->
  generateClassMap_go i classes classMap !! name c
  = Some (generateShortClassName (i + Z.of_nat j)).
Proof.
  revert i classMap j.
  induction classes as [|c0 classes IH]; intros i m j Hnd Hj; [done|].
  simpl in Hnd. apply NoDup_cons in Hnd as [Hc0 Hnd].
  destruct j as [|j]; simpl in *.
  - injection Hj as ->. rewrite generateClassMap_go_notin by done.
    rewrite lookup_insert_eq. do 2 f_equal. lia.
  - rewrite (IH _ _ j) by done. do 2 f_equal. lia.
Qed.

Lemma generateClassMap_go_dom classes i classMap :
  dom (generateClassMap_go i classes classMap)
  = list_to_set (name <$> classes) ∪ dom classMap.
Proof.
  revert i classMap. induction classes as [|c classes IH]; intros i m; simpl.
  - by rewrite (left_id_L ∅ (∪)).
  - rewrite IH, dom_insert_L.
    by rewrite (assoc_L (∪)), (comm_L (∪) _ {[name c]}).
Qed.

Lemma ranked_snoc (iteration : list (string * Z)) acc :
  foldl (fun classes kv => classes ++ [mkClassUsage kv.1 kv.2]) acc iteration
  = acc ++ ((fun kv => mkClassUsage kv.1 kv.2) <$> iteration).
Proof.
  revert acc. induction iteration as [|kv it IH]; intros acc; simpl.
  - by rewrite app_nil_r.
  - rewrite IH. by rewrite <- app_assoc.
Qed.
End ClassMapFacts.

(** ** The regexp2 engine *)
Section RegexFacts.

Lemma many_go_shrinks step : shrinks step -> forall fuel k s e,
  many_go step k fuel s = Some e ->
  exists s', k s' = Some e /\ (String.length s' <= String.length s)%nat.
Proof.
  intros Hstep fuel k. induction fuel as [|fuel IH]; intros s e H; simpl in H.
  - by exists s.
  - destruct (step s _) as [e'|] eqn:E.
    + injection H as ->. apply Hstep in E as (s' & Hk & Hle).
      destruct (Nat.ltb_spec (String.length s') (String.length s)); [|done].
      apply IH in Hk as (s'' & Hk & Hle'). exists s''. split; [done|lia].
    + by exists s.
Qed.

Lemma run_shrinks r : shrinks (run r).
Proof.
  induction r as [|p|r1 IH1 r2 IH2|r1 IH1 r2 IH2|r IH]; intros s k e H; simpl in H.
  - by exists s.
  - destruct s as [|a s]; [done|]. destruct (p a); [|done].
    exists s. split; [done|simpl; lia].
  - apply IH1 in H as (s1 & H & Hle1). apply IH2 in H as (s2 & H & Hle2).
    exists s2. split; [done|lia].
  - destruct (run r1 s k) as [e'|] eqn:E.
    + injection H as ->. by apply IH1.
    + by apply IH2.
  - by eapply many_go_shrinks.
Qed.

Lemma scan_isMatch re txt pos s mt :
  scan re txt pos s = Some mt -> s = Strings.drop pos txt ->
  (pos <= String.length txt)%nat ->
  text mt = txt
  /\ match_here re (Strings.drop (Index mt) txt) = Some (Length mt)
  /\ (pos <= Index mt <= String.length txt)%nat.
Proof.
  revert pos. induction s as [|a s IH]; intros pos H Hs Hpos; simpl in H.
  - destruct (match_here re EmptyString) as [n|] eqn:E; [|done].
    injection H as <-. simpl. by rewrite <- Hs.
  - destruct (match_here re (String a s)) as [n|] eqn:E.
    + injection H as <-. simpl. by rewrite <- Hs.
    + assert (pos < String.length txt)%nat.
      { apply (f_equal String.length) in Hs.
        rewrite str_length_drop in Hs. simpl in Hs. lia. }
      apply IH in H as (? & ? & ?); [repeat split; [done..|lia|lia]| |lia].
      symmetry. by eapply str_drop_String.
Qed.

Lemma runFrom_isMatch re txt start mt :
  runFrom re txt start = Some mt ->
  text mt = txt
  /\ match_here re (Strings.drop (Index mt) txt) = Some (Length mt)
  /\ (start <= Index mt <= String.length txt)%nat.
Proof.
  unfold runFrom.
  destruct (Nat.leb_spec start (String.length txt)); [|done].
  intros Hscan. by eapply scan_isMatch.
Qed.

Lemma FindNextMatch_isMatch re mt mt' :
  FindNextMatch re mt = Some mt' ->
  text mt' = text mt
  /\ match_here re (Strings.drop (Index mt') (text mt)) = Some (Length mt')
  /\ (Index mt < Index mt' <= String.length (text mt))%nat.
Proof.
  unfold FindNextMatch. destruct (Length mt) as [|n] eqn:E.
  - destruct (_ =? _)%nat; [done|].
    intros (? & ? & ?)%runFrom_isMatch. repeat split; [done..|lia|lia].
  - intros (? & ? & ?)%runFrom_isMatch. repeat split; [done..|lia|lia].
Qed.

Lemma findAll_go_isMatch re line fuel mt m :
  text mt = line ->
  match_here re (Strings.drop (Index mt) line) = Some (Length mt) ->
  m ∈ findAll_go fuel re (Some mt) -> isMatchOf re line m.
Proof.
  revert mt. induction fuel as [|fuel IH]; intros mt Ht Hm Hin; simpl in Hin.
  - by apply elem_of_nil in Hin.
  - apply elem_of_cons in Hin as [->|Hin].
    + exists (Index mt), (Length mt). split; [done|].
      unfold String_. by rewrite Ht.
    + destruct (FindNextMatch re mt) as [mt'|] eqn:E.
      * apply FindNextMatch_isMatch in E as (Ht' & Hm' & _).
        rewrite Ht in *. by eapply IH.
      * destruct fuel; by apply elem_of_nil in Hin.
Qed.

Lemma regexp2FindAllString_isMatch re line m :
  m ∈ regexp2FindAllString re line -> isMatchOf re line m.
Proof.
  unfold regexp2FindAllString, FindStringMatch. intros Hin.
  destruct (runFrom re line 0) as [mt|] eqn:E.
  - apply runFrom_isMatch in E as (? & ? & _). by eapply findAll_go_isMatch.
  - by apply elem_of_nil in Hin.
Qed.

(** The loop of [regexp2FindAllString] ends by itself: more rounds give
    no more matches. *)
Lemma findAll_go_fuel re fuel extra mt :
  (Index mt <= String.length (text mt) < Index mt + fuel)%nat ->
  findAll_go (fuel + extra) re (Some mt) = findAll_go fuel re (Some mt).
Proof.
  revert mt. induction fuel as [|fuel IH]; intros mt Hlen; [lia|].
  simpl. f_equal.
  destruct (FindNextMatch re mt) as [mt'|] eqn:E.
  - apply FindNextMatch_isMatch in E as (Ht & _ & ?).
    apply IH. rewrite Ht. lia.
  - by destruct fuel, extra.
Qed.

Lemma regexp2FindAllString_fuel re line extra :
  findAll_go (S (String.length line) + extra) re (FindStringMatch re line)
  = regexp2FindAllString re line.
Proof.
  unfold regexp2FindAllString.
  destruct (FindStringMatch re line) as [mt|] eqn:E; [|done].
  apply runFrom_isMatch in E as (Ht & _ & ?).
  apply findAll_go_fuel. rewrite Ht. lia.
Qed.

Lemma match_here_le re s n :
  match_here re s = Some n -> (n <= String.length s)%nat.
Proof.
  unfold match_here. destruct (run re s Some); [|done].
  intros [= <-]. lia.
Qed.

Lemma run_Cat_Class p r s k e :
  run (Cat (Class p) r) s k = Some e ->
  exists a s', s = String a s' /\ p a = true /\ run r s' k = Some e.
Proof.
  simpl. destruct s as [|a s']; [done|]. destruct (p a) eqn:E; [|done].
  intros H. by exists a, s'.
Qed.

(** A match of the stylesheet pattern starts with its dot. *)
Lemma cssClassRegex_nonempty line m :
  isMatchOf cssClassRegex line m -> (1 <= String.length m)%nat.
Proof.
  intros (i & n & Hm & ->). rewrite str_length_take.
  pose proof (match_here_le _ _ _ Hm).
  unfold match_here in Hm.
  destruct (run cssClassRegex _ Some) as [rest|] eqn:E; [|done].
  injection Hm as <-. unfold cssClassRegex, Seq, Lit in E.
  apply run_Cat_Class in E as (a & s & -> & _ & E).
  apply run_shrinks in E as (s' & [= ->] & Hle). simpl in *. lia.
Qed.
End RegexFacts.

(** ** Splitting, joining and replacing *)
Section SplitFacts.
Implicit Types s t sep : string.

Lemma prefix_drop sep s :
  String.prefix sep s = true -> s = sep +:+ Strings.drop (String.length sep) s.
Proof.
  revert s. induction sep as [|c sep IH]; intros s H; [done|].
  destruct s as [|a s]; simpl in *; [done|].
  destruct (ascii_dec c a) as [->|]; [|done]. f_equal. by apply IH.
Qed.

Lemma cut_eq sep s :
  Strings.cut sep s =
    if String.prefix sep s
    then Some (EmptyString, Strings.drop (String.length sep) s)
    else match s with
         | EmptyString => None
         | String a s' =>
             match Strings.cut sep s' with
             | Some (b, r) => Some (String a b, r)
             | None => None
             end
         end.
Proof. by destruct s. Qed.

Lemma cut_spec sep s b r : Strings.cut sep s = Some (b, r) -> s = b +:+ sep +:+ r.
Proof.
  revert b r. induction s as [|a s IH]; intros b r H; rewrite cut_eq in H;
    destruct (String.prefix sep _) eqn:E;
    try (injection H as <- <-; by apply prefix_drop); [done|].
  destruct (Strings.cut sep s) as [[b' r']|]; [|done].
  injection H as <- <-. simpl. f_equal. by apply IH.
Qed.

Lemma split_go_nonempty fuel s sep n : Strings.split_go fuel s sep n <> [].
Proof.
  destruct fuel; simpl; [done|].
  destruct (n =? 1); [done|]. by destruct (Strings.cut sep s) as [[??]|].
Qed.





Lemma HasSuffix_spec s suf :
  Strings.HasSuffix s suf = true ->
  s = Strings.take (String.length s - String.length suf) s +:+ suf
  /\ (String.length suf <= String.length s)%nat.
Proof.
  unfold Strings.HasSuffix. intros [Hle Heq]%andb_true_iff.
  apply Nat.leb_le in Hle. apply String.eqb_eq in Heq.
  split; [|done].
  pose proof (str_take_drop (String.length s - String.length suf) s) as H.
  by rewrite Heq in H.
Qed.

Lemma slice_to_ok s hi :
  0 <= hi <= Strings.len s ->
  Strings.slice_to s hi = Some (Strings.take (Z.to_nat hi) s).
Proof.
  intros H. unfold Strings.slice_to, Strings.slice.
  destruct (Z.leb_spec 0 0), (Z.leb_spec 0 hi), (Z.leb_spec hi (Strings.len s));
    try lia.
  simpl. by rewrite Z.sub_0_r.
Qed.

Lemma slice_from_ok s lo :
  0 <= lo <= Strings.len s ->
  Strings.slice_from s lo = Some (Strings.drop (Z.to_nat lo) s).
Proof.
  intros H. unfold Strings.slice_from, Strings.slice.
  destruct (Z.leb_spec 0 lo), (Z.leb_spec lo (Strings.len s)),
    (Z.leb_spec (Strings.len s) (Strings.len s)); try lia.
  simpl. f_equal.
  rewrite <- (str_take_drop (String.length (Strings.drop (Z.to_nat lo) s))
                (Strings.drop (Z.to_nat lo) s)) at 2.
  rewrite str_length_drop.
  replace (Z.to_nat (Strings.len s - lo))
    with (String.length s - Z.to_nat lo)%nat by (unfold Strings.len; lia).
  assert (Strings.drop (String.length s - Z.to_nat lo) (Strings.drop (Z.to_nat lo) s) = EmptyString) as ->.
  { rewrite str_drop_drop.
    assert (forall n t, (String.length t <= n)%nat -> Strings.drop n t = EmptyString) as Hd.
    { induction n; intros [|??]; simpl; try done; try lia.
      intros. apply IHn. lia. }
    apply Hd. unfold Strings.len in *. lia. }
  by rewrite str_app_nil_r.
Qed.

End SplitFacts.

(** ** The rewriters on names that are not mapped *)
Section Unmapped.
Variable classMap : gmap string string.






End Unmapped.

(** ** Names that are not keys pass through *)
Section PassThrough.
Variable classMap : gmap string string.











End PassThrough.

(** ** The words that the engine matches *)
Section RegexSound.

Lemma many_go_consumes r step : consumes r step -> forall fuel k s e,
  many_go step k fuel s = Some e ->
  exists w s', s = w +:+ s' /\ matches (Many r) w /\ k s' = Some e.
Proof.
  intros Hstep fuel k. induction fuel as [|fuel IH]; intros s e H; simpl in H.
  - exists EmptyString, s. repeat split; [constructor | done].
  - destruct (step s _) as [e'|] eqn:E.
    + injection H as ->. apply Hstep in E as (w1 & s1 & -> & Hw1 & Hk).
      destruct (String.length s1 <? String.length (w1 +:+ s1))%nat; [|done].
      apply IH in Hk as (w2 & s2 & -> & Hw2 & Hk).
      exists (w1 +:+ w2), s2. rewrite str_app_assoc.
      repeat split; [by constructor | done].
    + exists EmptyString, s. repeat split; [constructor | done].
Qed.

Lemma run_consumes r : consumes r (run r).
Proof.
  induction r as [|p|r1 IH1 r2 IH2|r1 IH1 r2 IH2|r IH]; intros s k e H; simpl in H.
  - exists EmptyString, s. repeat split; [constructor | done].
  - destruct s as [|a s]; [done|]. destruct (p a) eqn:Hp; [|done].
    exists (String a EmptyString), s. repeat split; [by constructor | done].
  - apply IH1 in H as (w1 & s1 & -> & Hw1 & H).
    apply IH2 in H as (w2 & s2 & -> & Hw2 & H).
    exists (w1 +:+ w2), s2. rewrite str_app_assoc.
    repeat split; [by constructor | done].
  - destruct (run r1 s k) as [e'|] eqn:E.
    + injection H as ->. apply IH1 in E as (w & s' & -> & Hw & Hk).
      exists w, s'. repeat split; [by apply matches_Or_l | done].
    + apply IH2 in H as (w & s' & -> & Hw & Hk).
      exists w, s'. repeat split; [by apply matches_Or_r | done].
  - by eapply many_go_consumes.
Qed.

Lemma isMatchOf_matches re line m : isMatchOf re line m -> matches re m.
Proof.
  intros (i & n & Hm & ->). unfold match_here in Hm.
  destruct (run re _ Some) as [rest|] eqn:E; [|done]. injection Hm as <-.
  apply run_consumes in E as (w & s' & -> & Hw & [= ->]).
  rewrite str_length_app.
  replace (String.length w + String.length rest - String.length rest)%nat
    with (String.length w) by lia.
  by rewrite str_take_app_length.
Qed.

Lemma matches_Cat_inv r1 r2 w :
  matches (Cat r1 r2) w ->
  exists w1 w2, w = w1 +:+ w2 /\ matches r1 w1 /\ matches r2 w2.
Proof. inversion 1; subst. by eexists _, _. Qed.

Lemma matches_Lit_inv c w : matches (Lit c) w -> w = String c EmptyString.
Proof.
  inversion 1 as [|p c' Hc| | | | |]; subst.
  by apply Ascii.eqb_eq in Hc as ->.
Qed.

(** A sequence that ends in a literal character matches words that end
    in it. *)
Lemma matches_Seq_last rs c w :
  matches (Seq (rs ++ [Lit c])) w -> exists b, w = b +:+ String c EmptyString.
Proof.
  revert w. induction rs as [|r rs IH]; intros w H.
  - apply matches_Lit_inv in H as ->. by exists EmptyString.
  - assert (Seq ((r :: rs) ++ [Lit c]) = Cat r (Seq (rs ++ [Lit c]))) as Heq.
    { simpl. by destruct (rs ++ [Lit c]) eqn:E; [destruct rs|]. }
    rewrite Heq in H. apply matches_Cat_inv in H as (w1 & w2 & -> & _ & H2).
    apply IH in H2 as [b ->]. exists (w1 +:+ b). by rewrite str_app_assoc.
Qed.

Lemma matches_Seq_cons r rs w :
  rs <> [] -> matches (Seq (r :: rs)) w ->
  exists w1 w2, w = w1 +:+ w2 /\ matches r w1 /\ matches (Seq rs) w2.
Proof. intros Hrs. destruct rs; [done|]. apply matches_Cat_inv. Qed.

(** A match of the [classList] pattern has an opening parenthesis, and
    ends in a closing one. *)
Lemma jsClassListRegex_shape m :
  matches jsClassListRegex m ->
  exists a b, m = a +:+ "(" +:+ b +:+ ")".
Proof.
  unfold jsClassListRegex. intros H.
  apply matches_Seq_cons in H as (w1 & m1 & -> & _ & H); [|done].
  apply matches_Seq_cons in H as (w2 & m2 & -> & _ & H); [|done].
  apply matches_Seq_cons in H as (w3 & m3 & -> & _ & H); [|done].
  apply matches_Seq_cons in H as (w4 & m4 & -> & H4 & H); [|done].
  apply matches_Lit_inv in H4 as ->.
  apply (matches_Seq_last
           [Many ws; quote; Grp (Many1 nameChar); quote;
            Many (Seq [Lit ","; Many ws; quote; Grp (Many1 nameChar); quote]);
            Many ws] ")") in H as [b ->].
  exists (w1 +:+ w2 +:+ w3), b. by rewrite !str_app_assoc.
Qed.
End RegexSound.

(** ** Indices and slices that are in range *)
Section IndexFacts.
Implicit Types s sub a c : string.

Lemma prefix_app sub c : String.prefix sub (sub +:+ c) = true.
Proof.
  induction sub as [|x sub IH]; simpl; [by destruct c|].
  by destruct (ascii_dec x x).
Qed.

Lemma cut_first sub a c :
  exists b r, Strings.cut sub (a +:+ sub +:+ c) = Some (b, r)
              /\ (String.length b <= String.length a)%nat.
Proof.
  induction a as [|x a (b & r & IH & Hle)]; rewrite cut_eq.
  - simpl. rewrite prefix_app. eexists _, _. split; [done|]. simpl. lia.
  - destruct (String.prefix sub _).
    + eexists _, _. split; [done|]. simpl. lia.
    + simpl. rewrite IH. eexists _, _. split; [done|]. simpl. lia.
Qed.

Lemma Index_range s sub : -1 <= Strings.Index s sub <= Strings.len s.
Proof.
  unfold Strings.Index, Strings.len.
  destruct (Strings.cut sub s) as [[b r]|] eqn:E; [|lia].
  apply cut_spec in E as ->. rewrite str_length_app. lia.
Qed.

Lemma Index_found_range s sub :
  Strings.Index s sub + Strings.len sub <= Strings.len s
  \/ Strings.Index s sub = -1.
Proof.
  unfold Strings.Index, Strings.len.
  destruct (Strings.cut sub s) as [[b r]|] eqn:E; [left|by right].
  apply cut_spec in E as ->. rewrite !str_length_app. lia.
Qed.

Lemma Index_first sub a c :
  0 <= Strings.Index (a +:+ sub +:+ c) sub <= Strings.len a.
Proof.
  unfold Strings.Index, Strings.len.
  destruct (cut_first sub a c) as (b & r & -> & Hle). lia.
Qed.

Lemma last_index_go_eq sub s i found :
  Strings.last_index_go sub s i found
  = match s with
    | EmptyString => if String.prefix sub s then i else found
    | String _ s' =>
        Strings.last_index_go sub s' (i + 1)
          (if String.prefix sub s then i else found)
    end.
Proof. by destruct s. Qed.

Lemma last_index_go_found sub s i found :
  found <= i -> found <= Strings.last_index_go sub s i found.
Proof.
  revert i found. induction s as [|x s IH]; intros i found Hle;
    rewrite last_index_go_eq.
  - destruct (String.prefix sub EmptyString); lia.
  - destruct (String.prefix sub (String x s)).
    + etrans; [|apply IH]; lia.
    + apply IH. lia.
Qed.

Lemma last_index_go_upper sub s i found :
  found <= i -> Strings.last_index_go sub s i found <= i + Strings.len s.
Proof.
  unfold Strings.len.
  revert i found. induction s as [|x s IH]; intros i found Hle;
    rewrite last_index_go_eq.
  - simpl String.length. destruct (String.prefix sub EmptyString); lia.
  - etrans; [apply IH|].
    + destruct (String.prefix sub (String x s)); lia.
    + simpl String.length. lia.
Qed.

Lemma last_index_go_last sub a c i found :
  i + Strings.len a <= Strings.last_index_go sub (a +:+ sub +:+ c) i found.
Proof.
  unfold Strings.len.
  revert i found. induction a as [|x a IH]; intros i found;
    rewrite last_index_go_eq.
  - change (EmptyString +:+ sub +:+ c) with (sub +:+ c).
    rewrite prefix_app. simpl String.length.
    destruct (sub +:+ c); [lia|].
    etrans; [|apply last_index_go_found]; lia.
  - change (String x a +:+ sub +:+ c) with (String x (a +:+ sub +:+ c)).
    cbv iota. etrans; [|apply IH]. simpl String.length. lia.
Qed.

Lemma LastIndex_last sub a c :
  Strings.len a <= Strings.LastIndex (a +:+ sub +:+ c) sub
  <= Strings.len (a +:+ sub +:+ c).
Proof.
  unfold Strings.LastIndex. split.
  - etrans; [|apply last_index_go_last]. lia.
  - etrans; [apply last_index_go_upper|]; lia.
Qed.

Lemma slice_ok s lo hi :
  0 <= lo <= hi -> hi <= Strings.len s -> is_Some (Strings.slice s lo hi).
Proof.
  intros H1 H2. unfold Strings.slice.
  destruct (Z.leb_spec 0 lo), (Z.leb_spec lo hi), (Z.leb_spec hi (Strings.len s));
    try lia.
  by eexists.
Qed.
End IndexFacts.

(** ** The rewriters return on every line *)
Section Total.
Variable classMap : gmap string string.

Lemma forEach_is_Some {A S : Type} (body : S -> A -> option S) l (s : S) :
  (forall s x, x ∈ l -> is_Some (body s x)) -> is_Some (forEach body l s).
Proof.
  revert s. induction l as [|x l IH]; intros s H; simpl; [by eexists|].
  destruct (H s x) as [s' ->]; [apply list_elem_of_here|]. simpl.
  apply IH. intros s'' y Hy. apply H. by apply list_elem_of_further.
Qed.

Lemma updateCSSClasses_total line : is_Some (updateCSSClasses line classMap).
Proof.
  unfold updateCSSClasses. apply forEach_is_Some. intros s m Hm.
  pose proof (cssClassRegex_nonempty line m
                (regexp2FindAllString_isMatch _ _ _ Hm)) as Hlen.
  rewrite slice_from_ok by (unfold Strings.len; lia). simpl.
  by destruct (classMap !! _).
Qed.

Lemma updateJSQuerySelector_total line :
  is_Some (updateJSQuerySelector line classMap).
Proof.
  unfold updateJSQuerySelector. apply forEach_is_Some. intros s m Hm.
  destruct (Strings.SplitN m "." 2) as [|part0 [|part1 [|??]]]; try by eexists.
  destruct (Strings.HasSuffix part1 (dq +:+ ")")) eqn:Hsuf; [|by eexists].
  apply HasSuffix_spec in Hsuf as [_ Hlen]. simpl in Hlen.
  rewrite slice_to_ok by (unfold Strings.len; lia). by eexists.
Qed.

Lemma is_Some_bind {A B : Type} (mx : option A) (f : A -> option B) x :
  mx = Some x -> is_Some (f x) -> is_Some (mx ≫= f).
Proof. by intros ->. Qed.

Lemma updateJSClassList_total line : is_Some (updateJSClassList line classMap).
Proof.
  unfold updateJSClassList. apply forEach_is_Some. intros s m Hm.
  apply regexp2FindAllString_isMatch, isMatchOf_matches,
    jsClassListRegex_shape in Hm as (a & b & ->).
  pose proof (Index_first "(" a (b +:+ ")")) as Hi.
  pose proof (LastIndex_last ")" (a +:+ "(" +:+ b) EmptyString) as Hl.
  rewrite str_app_nil_r, !str_app_assoc in Hl.
  assert (Strings.len (a +:+ "(" +:+ b) = Strings.len a + 1 + Strings.len b) as Hlen.
  { unfold Strings.len. rewrite !str_length_app. simpl. lia. }
  rewrite Hlen in Hl.
  pose proof (Nat2Z.is_nonneg (String.length b)) as Hb. fold (Strings.len b) in Hb.
  set (m := a +:+ "(" +:+ b +:+ ")") in *.
  destruct (slice_ok m (Strings.Index m "(" + 1) (Strings.LastIndex m ")"))
    as [x Hx]; [lia..|].
  destruct (slice_ok m 0 (Strings.Index m "(" + 1)) as [y Hy]; [lia..|].
  destruct (slice_ok m (Strings.LastIndex m ")") (Strings.len m))
    as [z Hz]; [lia..|].
  eapply is_Some_bind; [exact Hx|].
  eapply is_Some_bind; [exact Hy|].
  eapply is_Some_bind; [exact Hz|]. by eexists.
Qed.

Lemma updateJSClassName_total line : is_Some (updateJSClassName line classMap).
Proof.
  unfold updateJSClassName. apply forEach_is_Some. intros s m Hm.
  pose proof (Index_range m "=").
  destruct (Index_found_range m "=") as [Hf|Hf];
    (rewrite slice_from_ok; [by eexists|]); unfold Strings.len in *; simpl in *; lia.
Qed.

Lemma updateJSClasses_total line : is_Some (updateJSClasses line classMap).
Proof.
  unfold updateJSClasses.
  destruct (updateJSQuerySelector_total line) as [l1 ->]. simpl.
  destruct (updateJSClassList_total l1) as [l2 ->]. simpl.
  apply updateJSClassName_total.
Qed.

Lemma updateLine_total path line allowDuplicates :
  is_Some (updateLine path line classMap allowDuplicates).
Proof.
  unfold updateLine.
  destruct (String.eqb _ ".css"); [apply updateCSSClasses_total|].
  destruct (String.eqb _ ".js"); [apply updateJSClasses_total|]. by eexists.
Qed.
End Total.

(** ** The scanner *)
Section ScannerFacts.
Implicit Types (s l rest : string).

Lemma containsChar_app c s t :
  containsChar c (s +:+ t) = containsChar c s || containsChar c t.
Proof.
  induction s as [|a s IH]; simpl; [done|]. rewrite IH. by rewrite orb_assoc.
Qed.

Lemma rawLines_line l rest :
  containsChar lf_c l = false ->
  Bufio.rawLines (l +:+ String lf_c rest) = l :: Bufio.rawLines rest.
Proof.
  induction l as [|a l IH]; simpl; intros H.
  - done.
  - apply orb_false_iff in H as [-> H]. by rewrite IH.
Qed.

Lemma rawLines_last l :
  containsChar lf_c l = false ->
  Bufio.rawLines l = match l with EmptyString => [] | _ => [l] end.
Proof.
  induction l as [|a l IH]; simpl; intros H; [done|].
  apply orb_false_iff in H as [-> H]. rewrite IH by done. by destruct l.
Qed.

(** The scanner's steps produce [tokens]. *)
Lemma breakLine_rawLines s :
  s <> EmptyString ->
  Bufio.rawLines s
  = (Bufio.breakLine s).1
    :: Bufio.rawLines (default EmptyString (Bufio.breakLine s).2).
Proof.
  induction s as [|a s IH]; [done|]. intros _. simpl.
  destruct (Ascii.eqb a lf_c); [done|].
  destruct s as [|b s]; [done|].
  rewrite IH by done. by destruct (Bufio.breakLine (String b s)).
Qed.

Lemma tokens_Scan input :
  Bufio.tokens input =
    match Bufio.Scan input with
    | Some (token, unread) => token :: Bufio.tokens unread
    | None => []
    end.
Proof.
  destruct input as [|a s]; [done|].
  unfold Bufio.tokens, Bufio.Scan.
  rewrite breakLine_rawLines by done.
  destruct (Bufio.breakLine (String a s)) as [l r]. simpl.
  by destruct (Bufio.MaxScanTokenSize <=? Strings.len l).
Qed.

Lemma dropCR_CR l : Bufio.dropCR (l +:+ CR) = l.
Proof.
  unfold Bufio.dropCR, Strings.HasSuffix.
  rewrite str_length_app. simpl.
  replace (String.length l + 1 - 1)%nat with (String.length l) by lia.
  rewrite str_drop_app_length, str_take_app_length.
  rewrite String.eqb_refl.
  by replace (String.length l + 1)%nat with (S (String.length l)) by lia.
Qed.

Lemma dropCR_other l : Strings.HasSuffix l CR = false -> Bufio.dropCR l = l.
Proof. unfold Bufio.dropCR. by intros ->. Qed.

Lemma fileText_crlf l rest :
  l +:+ lineEnding true +:+ rest = (l +:+ CR) +:+ String lf_c rest.
Proof. by rewrite str_app_assoc. Qed.

Lemma len_app_CR l : Strings.len (l +:+ CR) = Strings.len l + 1.
Proof. unfold Strings.len. rewrite str_length_app. simpl. lia. Qed.

Lemma whileFits_cons l ls :
  Strings.len l < Bufio.MaxScanTokenSize ->
  Bufio.whileFits (l :: ls) = l :: Bufio.whileFits ls.
Proof.
  intros H. simpl.
  by destruct (Z.leb_spec Bufio.MaxScanTokenSize (Strings.len l)); [lia|].
Qed.

Lemma tokens_fileText lines last :
  forallb lineFits lines = true -> lastFits last = true ->
  Bufio.tokens (fileText lines last) = linesRead lines last.
Proof.
  intros Hlines Hlast. unfold Bufio.tokens, linesRead.
  induction lines as [|[l crlf] lines IH].
  - apply andb_true_iff in Hlast as [Hlf Hlen%Z.ltb_lt].
    apply negb_true_iff in Hlf. simpl. rewrite rawLines_last by done.
    destruct last as [|a last]; [done|].
    by rewrite whileFits_cons.
  - change (forallb lineFits ((l, crlf) :: lines))
      with (lineFits (l, crlf) && forallb lineFits lines) in Hlines.
    apply andb_true_iff in Hlines as [Hl Hlines].
    apply andb_true_iff in Hl as [Hl Hcr].
    apply andb_true_iff in Hl as [Hlf Hlen%Z.ltb_lt].
    apply negb_true_iff in Hlf. specialize (IH Hlines).
    change (fileText ((l, crlf) :: lines) last)
      with (l +:+ lineEnding crlf +:+ fileText lines last).
    change (((l, crlf) :: lines).*1) with (l :: lines.*1).
    rewrite <- app_comm_cons, <- IH.
    destruct crlf.
    + rewrite fileText_crlf, rawLines_line.
      * rewrite whileFits_cons by (rewrite len_app_CR; lia).
        by rewrite fmap_cons, dropCR_CR.
      * rewrite containsChar_app, Hlf. done.
    + change (lineEnding false +:+ fileText lines last)
        with (String lf_c (fileText lines last)).
      rewrite rawLines_line by done.
      rewrite whileFits_cons by lia.
      apply negb_true_iff in Hcr.
      by rewrite fmap_cons, dropCR_other.
Qed.

Lemma HasSuffix_app s suf : Strings.HasSuffix (s +:+ suf) suf = true.
Proof.
  unfold Strings.HasSuffix. rewrite str_length_app.
  replace (String.length s + String.length suf - String.length suf)%nat
    with (String.length s) by lia.
  rewrite str_drop_app_length, String.eqb_refl.
  destruct (Nat.leb_spec (String.length suf) (String.length s + String.length suf));
    [done|lia].
Qed.

Lemma writeLines_ends_LF ls :
  ls <> [] -> Strings.HasSuffix (writeLines ls) LF = true.
Proof.
  induction ls as [|l ls IH]; [done|]. intros _.
  change (writeLines (l :: ls)) with (l +:+ LF +:+ writeLines ls).
  destruct ls as [|l' ls].
  - apply (HasSuffix_app l LF).
  - specialize (IH ltac:(done)).
    apply HasSuffix_spec in IH as [IH _]. rewrite IH.
    rewrite <- !str_app_assoc. apply HasSuffix_app.
Qed.

Lemma forEach_written (f : string -> option string) (ls : list string)
    (written : string) :
  (forall l, is_Some (f l)) ->
  exists us,
    Forall2 (fun l u => f l = Some u) ls us
    /\ forEach (fun written line =>
                  updatedLine ← f line; Some (written +:+ (updatedLine +:+ LF)))
               ls written
       = Some (written +:+ writeLines us).
Proof.
  intros Hf. revert written. induction ls as [|l ls IH]; intros written.
  - exists []. split; [constructor|]. simpl. by rewrite str_app_nil_r.
  - destruct (Hf l) as [u Hu].
    destruct (IH (written +:+ (u +:+ LF))) as (us & Hus & Heq).
    exists (u :: us). split; [by constructor|].
    simpl. rewrite Hu. simpl. rewrite Heq. by rewrite !str_app_assoc.
Qed.
End ScannerFacts.

Section FileTextFacts.

Lemma HasSuffix_CR_cons a l :
  l <> EmptyString ->
  Strings.HasSuffix (String a l) CR = Strings.HasSuffix l CR.
Proof.
  intros Hl. unfold Strings.HasSuffix.
  destruct l as [|b l]; [done|]. simpl String.length.
  replace (S (S (String.length l)) - 1)%nat with (S (String.length l)) by lia.
  replace (S (String.length l) - 1)%nat with (String.length l) by lia.
  done.
Qed.

(** Every text is the text of a file in the sense of [fileText], with
    lines free of LF and the CR in front of an LF counted with the line
    ending. *)
Lemma fileText_complete content :
  exists lines last,
    content = fileText lines last
    /\ Forall (fun line : string * bool =>
                 containsChar lf_c line.1 = false
                 /\ (line.2 || negb (Strings.HasSuffix line.1 CR)) = true) lines
    /\ containsChar lf_c last = false.
Proof.
  induction content as [|a s (lines & last & -> & Hlines & Hlast)].
  - exists [], EmptyString. repeat split; constructor.
  - destruct (Ascii.eqb_spec a lf_c) as [->|Hne].
    + exists ((EmptyString, false) :: lines), last.
      repeat split; [|done]. constructor; [done|done].
    + apply Ascii.eqb_neq in Hne. destruct lines as [|[l c] lines].
      * exists [], (String a last). repeat split; [constructor|].
        simpl. by rewrite Hne, Hlast.
      * apply Forall_cons in Hlines as [[Hl Hc] Hlines]. simpl in Hl, Hc.
        destruct c.
        -- exists ((String a l, true) :: lines), last.
           repeat split; [|done]. constructor; [|done].
           split; [simpl; by rewrite Hne, Hl | done].
        -- destruct l as [|b l].
           ++ destruct (Ascii.eqb_spec a cr_c) as [->|Hcr].
              ** exists ((EmptyString, true) :: lines), last.
                 repeat split; [|done]. by constructor.
              ** exists ((String a EmptyString, false) :: lines), last.
                 repeat split; [|done]. constructor; [|done].
                 split; [simpl; by rewrite Hne|]. simpl.
                 unfold Strings.HasSuffix. simpl.
                 apply Ascii.eqb_neq in Hcr. by rewrite Hcr.
           ++ exists ((String a (String b l), false) :: lines), last.
              repeat split; [|done]. constructor; [|done].
              split; [by simpl in *; rewrite Hne, Hl|]. simpl.
              by rewrite HasSuffix_CR_cons.
Qed.
End FileTextFacts.

Section Ranking.
Variable sort_Slice : list ClassUsage -> list ClassUsage.
Hypothesis sort_Slice_perm : forall l, sort_Slice l ≡ₚ l.
Hypothesis sort_Slice_sorted :
  forall l, Sort.sorted_for byCountDesc (sort_Slice l).

Variable classCount : gmap string Z.
Variable iteration : list (string * Z).
Hypothesis iteration_perm : iteration ≡ₚ map_to_list classCount.

Local Abbreviation classes := (rankClasses sort_Slice iteration).
Local Abbreviation classMap := (generateClassMap classes).

Lemma rankClasses_perm :
  classes ≡ₚ (fun kv => mkClassUsage kv.1 kv.2) <$> map_to_list classCount.
Proof.
  unfold rankClasses. rewrite sort_Slice_perm, ranked_snoc. simpl.
  by rewrite iteration_perm.
Qed.

Lemma rankClasses_names : name <$> classes ≡ₚ (map_to_list classCount).*1.
Proof.
  rewrite rankClasses_perm, <- list_fmap_compose.
  induction (map_to_list classCount) as [|[k v] l IH]; simpl; [done|].
  by constructor.
Qed.

Lemma rankClasses_NoDup : NoDup (name <$> classes).
Proof. rewrite rankClasses_names. apply NoDup_fst_map_to_list. Qed.

Lemma rankClasses_elem x c :
  mkClassUsage x c ∈ classes <-> classCount !! x = Some c.
Proof.
  rewrite rankClasses_perm, list_elem_of_fmap. split.
  - intros [[k v] [[= -> ->] Hin]]. by apply elem_of_map_to_list.
  - intros H. exists (x, c). split; [done|]. by apply elem_of_map_to_list.
Qed.

Lemma classMap_lookup_rank i c :
  classes !! i = Some c ->
  classMap !! name c = Some (generateShortClassName (Z.of_nat i)).
Proof.
  intros Hi. unfold generateClassMap.
  by rewrite (generateClassMap_go_lookup _ _ _ i) by (done || apply rankClasses_NoDup).
Qed.

Lemma classMap_lookup_inv x s :
  classMap !! x = Some s ->
  exists i c, classes !! i = Some (mkClassUsage x c)
              /\ s = generateShortClassName (Z.of_nat i).
Proof.
  intros Hx. destruct (decide (x ∈ name <$> classes)) as [Hin|Hnin].
  - apply list_elem_of_fmap in Hin as [[x' c] [-> Hin]].
    apply list_elem_of_lookup in Hin as [i Hi].
    exists i, c. split; [done|].
    apply classMap_lookup_rank in Hi. simpl in *. congruence.
  - unfold generateClassMap in Hx.
    by rewrite generateClassMap_go_notin in Hx.
Qed.

Lemma classMap_dom : dom classMap = dom classCount.
Proof.
  unfold generateClassMap. rewrite generateClassMap_go_dom.
  apply set_eq. intros x.
  rewrite elem_of_union, elem_of_list_to_set, dom_empty_L, elem_of_dom.
  rewrite rankClasses_names. split.
  - intros [Hin|Hin]; [|by apply elem_of_empty in Hin].
    apply list_elem_of_fmap in Hin as [[k v] [-> Hin]].
    apply elem_of_map_to_list in Hin. by exists v.
  - intros [v Hv]. left. apply list_elem_of_fmap. exists (x, v).
    split; [done|]. by apply elem_of_map_to_list.
Qed.

Lemma classMap_injective x y s :
  classMap !! x = Some s -> classMap !! y = Some s -> x = y.
Proof.
  intros (i & cx & Hi & ->)%classMap_lookup_inv (j & cy & Hj & E)%classMap_lookup_inv.
  apply generateShortClassName_inj in E; [|lia..].
  apply Nat2Z.inj in E as ->. congruence.
Qed.

(** C6 (bijection property): whatever order the map is iterated in and
    whatever permutation [sort.Slice] returns, the class map built from
    a usage table has exactly the class names of the table as keys, each
    of them once in the ranked list; no two names are mapped to the same
    short name; and the short name of a class is the short name of its
    rank index. *)
Theorem classMap_bijection :
  dom classMap = dom classCount
  /\ NoDup (name <$> classes)
  /\ length classes = size classCount
  /\ (forall x y s, classMap !! x = Some s -> classMap !! y = Some s -> x = y)
  /\ (forall x s, classMap !! x = Some s <->
        exists i c, classes !! i = Some (mkClassUsage x c)
                    /\ s = generateShortClassName (Z.of_nat i)).
Proof.
  split; [apply classMap_dom|]. split; [apply rankClasses_NoDup|].
  split.
  { rewrite rankClasses_perm, length_fmap. apply length_map_to_list. }
  split; [apply classMap_injective|].
  intros x s. split; [apply classMap_lookup_inv|].
  intros (i & c & Hi & ->). by apply classMap_lookup_rank in Hi.
Qed.

Lemma rank_order x y cx cy :
  classCount !! x = Some cx -> classCount !! y = Some cy -> cy < cx ->
  exists i j : nat,
    classes !! i = Some (mkClassUsage x cx)
    /\ classes !! j = Some (mkClassUsage y cy)
    /\ (i < j)%nat
    /\ classMap !! x = Some (generateShortClassName (Z.of_nat i))
    /\ classMap !! y = Some (generateShortClassName (Z.of_nat j))
    /\ (String.length (generateShortClassName (Z.of_nat i))
        <= String.length (generateShortClassName (Z.of_nat j)))%nat.
Proof.
  intros Hx Hy Hlt.
  apply rankClasses_elem, list_elem_of_lookup in Hx as [i Hi].
  apply rankClasses_elem, list_elem_of_lookup in Hy as [j Hj].
  exists i, j. split; [done|]. split; [done|].
  assert (i < j)%nat as Hij.
  { destruct (Nat.lt_trichotomy i j) as [?|[->|Hji]]; [done| |].
    - rewrite Hi in Hj. injection Hj as -> ->. lia.
    - pose proof (sort_Slice_sorted _ j i _ _ Hji Hj Hi) as Hs.
      unfold byCountDesc in Hs. simpl in Hs. apply Z.ltb_ge in Hs. lia. }
  split; [done|].
  split; [by apply classMap_lookup_rank in Hi|].
  split; [by apply classMap_lookup_rank in Hj|].
  apply length_generateShortClassName_mono. lia.
Qed.
End Ranking.

(** * The claims of the specification *)

(** In the comments below [Q] stands for the double-quote character. *)

(** C1 (markup round-trip), evaluated on the code.  On the line
    [<div class=Qfoo bar fooQ>] with foo -> a and bar -> b the markup
    rewriter returns neither [<div class=Qa bQ>] (duplicate suppression
    on) nor [<div class=Qa b aQ>] (off).  [strings.Fields] is applied to
    the whole match, so the tokens are [class=Qfoo], [bar] and [fooQ]; only
    [bar] is renamed, and the match is replaced by
    [class=Qclass=Qfoo b fooQQ] in both modes. *)
Theorem updateHTMLClasses_round_trip_example :
  updateHTMLClasses divFooBarFoo exampleMap false
  = "<div class=" +:+ dq +:+ "class=" +:+ dq +:+ "foo b foo" +:+ dq +:+ dq +:+ ">"
  /\ updateHTMLClasses divFooBarFoo exampleMap true
     = "<div class=" +:+ dq +:+ "class=" +:+ dq +:+ "foo b foo" +:+ dq +:+ dq +:+ ">"
  /\ updateHTMLClasses divFooBarFoo exampleMap false
     <> "<div class=" +:+ dq +:+ "a b" +:+ dq +:+ ">"
  /\ updateHTMLClasses divFooBarFoo exampleMap true
     <> "<div class=" +:+ dq +:+ "a b a" +:+ dq +:+ ">".
Proof. repeat split; vm_compute; (reflexivity || discriminate). Qed.

(** C2 (markup extraction rule), evaluated on the code.  On the line
    [<div class=Qfoo barQ>] the collector does not count [foo] and [bar]:
    it splits the whole match at white space and counts [class=Qfoo] and
    [barQ], with the [class=] prefix and the quotes in the names. *)
Theorem extractClassesFromHTML_counts_raw_tokens :
  let line := "<div class=" +:+ dq +:+ "foo bar" +:+ dq +:+ ">" in
  extractClassesFromHTML line ∅
  = <["class=" +:+ dq +:+ "foo" := 1]> (<["bar" +:+ dq := 1]> ∅)
  /\ extractClassesFromHTML line ∅ !! "foo" = None
  /\ extractClassesFromHTML line ∅ !! "bar" = None.
Proof. repeat split; vm_compute; reflexivity. Qed.

(** C3 ([querySelector] extraction rule), evaluated on the code.  On the
    line [document.querySelector(Q.foo.barQ)] the collector splits the
    whole match at the dots and counts [foo] and [barQ)]: the last name
    keeps the closing quote and parenthesis, and [bar] is not counted. *)
Theorem extractClassesFromJS_querySelector_counts :
  let line := "document.querySelector(" +:+ dq +:+ ".foo.bar" +:+ dq +:+ ")" in
  extractClassesFromJS line ∅
  = Some (<["foo" := 1]> (<["bar" +:+ dq +:+ ")" := 1]> ∅))
  /\ (extractClassesFromJS line ∅ ≫= (.!! "bar")) = None.
Proof. repeat split; vm_compute; reflexivity. Qed.

(** An empty segment of the selector is counted as a class name too. *)
Example extractClassesFromJS_empty_segment :
  (extractClassesFromJS
     ("document.querySelector(" +:+ sq +:+ ".a..b" +:+ sq +:+ ")") ∅
   ≫= (.!! EmptyString)) = Some 1.
Proof. vm_compute. reflexivity. Qed.

(** C4 (short-name examples): the five values of the specification do not
    all hold: index 26 gives [a1], not [a0]. *)
Lemma generateShortClassName_spec_examples_fail :
  ~ (generateShortClassName 0 = "a" /\ generateShortClassName 25 = "z"
     /\ generateShortClassName 26 = "a0" /\ generateShortClassName 35 = "a9"
     /\ generateShortClassName 36 = "aa0").
Proof. intros (_ & _ & H & _). vm_compute in H. discriminate. Qed.

(** C4 (short-name examples), amended: the short names of the indices 0,
    25, 26, 35 and 36 are [a], [z], [a1], [j1] and [k1]. *)
Theorem generateShortClassName_examples :
  generateShortClassName 0 = "a" /\ generateShortClassName 25 = "z"
  /\ generateShortClassName 26 = "a1" /\ generateShortClassName 35 = "j1"
  /\ generateShortClassName 36 = "k1".
Proof. repeat split; vm_compute; reflexivity. Qed.

(** The names of the shape that the specification lists come later. *)
Example generateShortClassName_more :
  generateShortClassName <$> [51; 52; 259; 260; 285; 286; 2859; 2860]
  = ["z1"; "a2"; "z9"; "aa0"; "za0"; "aa1"; "za99"; "aa100"].
Proof. vm_compute. reflexivity. Qed.

(** C5 (short-name formula): for every index [i >= 0], with the letter
    [chr('a' + i mod 26)] and the tier [i div 26], the generated name is
    the letter in tier 0, the letter and the decimal digits of the tier in
    tiers 1 to 9, and the letter, [a] and the decimal digits of
    [tier - 10] above. *)
Theorem generateShortClassName_formula (i : Z) :
  0 <= i -> generateShortClassName i = ShortName_spec i.
Proof.
  intros Hi. rewrite generateShortClassName_eq by done. unfold ShortName_spec.
  assert (0 <= i / 26) by (apply Z.div_pos; lia).
  destruct (Z.eqb_spec (i / 26) 0); [done|].
  destruct (Z.leb_spec (i / 26) 9).
  - by rewrite fmt_u_decimal by done.
  - by rewrite fmt_u_decimal by lia.
Qed.

Lemma generateShortClassName_formula_witness :
  0 <= 286 /\ generateShortClassName 286 = ShortName_spec 286.
Proof. split; [lia | apply (generateShortClassName_formula 286); lia]. Defined.

Lemma classMap_bijection_witness :
  (forall l, Sort.insertionSort byCountDesc l ≡ₚ l)
  /\ map_to_list exampleCounts ≡ₚ map_to_list exampleCounts
  /\ dom (generateClassMap
            (rankClasses (Sort.insertionSort byCountDesc) (map_to_list exampleCounts)))
     = dom exampleCounts
  /\ NoDup (name <$> rankClasses (Sort.insertionSort byCountDesc)
                       (map_to_list exampleCounts))
  /\ length (rankClasses (Sort.insertionSort byCountDesc) (map_to_list exampleCounts))
     = size exampleCounts
  /\ (forall x y s,
        generateClassMap
          (rankClasses (Sort.insertionSort byCountDesc) (map_to_list exampleCounts))
        !! x = Some s ->
        generateClassMap
          (rankClasses (Sort.insertionSort byCountDesc) (map_to_list exampleCounts))
        !! y = Some s -> x = y)
  /\ (forall x s,
        generateClassMap
          (rankClasses (Sort.insertionSort byCountDesc) (map_to_list exampleCounts))
        !! x = Some s <->
        exists i c,
          rankClasses (Sort.insertionSort byCountDesc) (map_to_list exampleCounts) !! i
          = Some (mkClassUsage x c)
          /\ s = generateShortClassName (Z.of_nat i)).
Proof.
  assert (forall l, Sort.insertionSort byCountDesc l ≡ₚ l) as Hperm.
  { intros l. apply insertionSort_perm. }
  split; [exact Hperm|]. split; [reflexivity|].
  apply (classMap_bijection (Sort.insertionSort byCountDesc) Hperm exampleCounts
           (map_to_list exampleCounts)).
  reflexivity.
Defined.

(** C7 (ranking order): whatever order the map is iterated in and whatever
    sorted permutation [sort.Slice] returns, a class with a strictly
    greater count than another one has a strictly smaller rank index, and
    so a short name that is not longer. *)
Theorem rankClasses_order (sort_Slice : list ClassUsage -> list ClassUsage)
    (classCount : gmap string Z) (iteration : list (string * Z))
    (x y : string) (cx cy : Z) :
  (forall l, sort_Slice l ≡ₚ l) ->
  (forall l, Sort.sorted_for byCountDesc (sort_Slice l)) ->
  iteration ≡ₚ map_to_list classCount ->
  classCount !! x = Some cx -> classCount !! y = Some cy -> cy < cx ->
  exists i j : nat,
    rankClasses sort_Slice iteration !! i = Some (mkClassUsage x cx)
    /\ rankClasses sort_Slice iteration !! j = Some (mkClassUsage y cy)
    /\ (i < j)%nat
    /\ generateClassMap (rankClasses sort_Slice iteration) !! x
       = Some (generateShortClassName (Z.of_nat i))
    /\ generateClassMap (rankClasses sort_Slice iteration) !! y
       = Some (generateShortClassName (Z.of_nat j))
    /\ (String.length (generateShortClassName (Z.of_nat i))
        <= String.length (generateShortClassName (Z.of_nat j)))%nat.
Proof. intros. by eapply rank_order. Qed.

Lemma rankClasses_order_witness :
  (forall l, Sort.insertionSort byCountDesc l ≡ₚ l)
  /\ (forall l, Sort.sorted_for byCountDesc (Sort.insertionSort byCountDesc l))
  /\ map_to_list exampleCounts ≡ₚ map_to_list exampleCounts
  /\ exampleCounts !! "foo" = Some 5 /\ exampleCounts !! "baz" = Some 1
  /\ 1 < 5
  /\ exists i j : nat,
       rankClasses (Sort.insertionSort byCountDesc) (map_to_list exampleCounts) !! i
       = Some (mkClassUsage "foo" 5)
       /\ rankClasses (Sort.insertionSort byCountDesc) (map_to_list exampleCounts) !! j
          = Some (mkClassUsage "baz" 1)
       /\ (i < j)%nat
       /\ generateClassMap
            (rankClasses (Sort.insertionSort byCountDesc) (map_to_list exampleCounts))
          !! "foo" = Some (generateShortClassName (Z.of_nat i))
       /\ generateClassMap
            (rankClasses (Sort.insertionSort byCountDesc) (map_to_list exampleCounts))
          !! "baz" = Some (generateShortClassName (Z.of_nat j))
       /\ (String.length (generateShortClassName (Z.of_nat i))
           <= String.length (generateShortClassName (Z.of_nat j)))%nat.
Proof.
  assert (forall l, Sort.insertionSort byCountDesc l ≡ₚ l) as Hperm.
  { intros l. apply insertionSort_perm. }
  assert (forall l, Sort.sorted_for byCountDesc (Sort.insertionSort byCountDesc l))
    as Hsorted.
  { intros l. apply insertionSort_sorted;
      [apply byCountDesc_asym | apply byCountDesc_negtrans]. }
  split; [exact Hperm|]. split; [exact Hsorted|].
  split; [reflexivity|]. split; [reflexivity|]. split; [reflexivity|].
  split; [lia|].
  apply (rankClasses_order (Sort.insertionSort byCountDesc) exampleCounts
           (map_to_list exampleCounts) "foo" "baz" 5 1);
    [exact Hperm | exact Hsorted | reflexivity | reflexivity | reflexivity | lia].
Defined.

(** The example of the specification: with the counts foo 5, bar 5 and
    baz 1, [baz] is ranked after both [foo] and [bar]. *)
Example rankClasses_example (sort_Slice : list ClassUsage -> list ClassUsage)
    (iteration : list (string * Z)) :
  (forall l, sort_Slice l ≡ₚ l) ->
  (forall l, Sort.sorted_for byCountDesc (sort_Slice l)) ->
  iteration ≡ₚ map_to_list exampleCounts ->
  exists iFoo iBar iBaz : nat,
    rankClasses sort_Slice iteration !! iFoo = Some (mkClassUsage "foo" 5)
    /\ rankClasses sort_Slice iteration !! iBar = Some (mkClassUsage "bar" 5)
    /\ rankClasses sort_Slice iteration !! iBaz = Some (mkClassUsage "baz" 1)
    /\ (iFoo < iBaz)%nat /\ (iBar < iBaz)%nat.
Proof.
  intros Hperm Hsorted Hit.
  destruct (rank_order sort_Slice Hperm Hsorted exampleCounts iteration Hit
              "foo" "baz" 5 1) as (i & k & Hi & Hk & Hik & _); [done..|].
  destruct (rank_order sort_Slice Hperm Hsorted exampleCounts iteration Hit
              "bar" "baz" 5 1) as (j & k' & Hj & Hk' & Hjk & _); [done..|].
  exists i, j, k. repeat split; [done..|].
  assert (k' = k) as <-; [|done].
  pose proof (rankClasses_NoDup sort_Slice Hperm exampleCounts iteration Hit) as Hnd.
  eapply NoDup_lookup; [exact Hnd| |].
  - by rewrite list_lookup_fmap, Hk'.
  - by rewrite list_lookup_fmap, Hk.
Qed.


(** The other constructs that are rebuilt in a fixed form: the argument
    list of a [classList] call, and the [class] attribute of a markup
    line. *)
Example rewriters_rebuild :
  updateJSClasses
    ("el.classList.add(" +:+ sq +:+ "foo" +:+ sq +:+ "," +:+ sq +:+ "x" +:+ sq +:+ ")") ∅
  = Some ("el.classList.add(" +:+ dq +:+ "foo" +:+ dq +:+ ", "
          +:+ dq +:+ "x" +:+ dq +:+ ")")
  /\ updateHTMLClasses ("<p class=" +:+ sq +:+ "foo" +:+ sq +:+ ">") ∅ false
     = "<p class=" +:+ dq +:+ "class=" +:+ sq +:+ "foo" +:+ sq +:+ dq +:+ ">".
Proof. split; vm_compute; reflexivity. Qed.



(** The names looked up on that line, and what both maps make of it. *)
Example namesLookedUp_example :
  namesLookedUp "app.js"
    ("el.classList.add(" +:+ sq +:+ "open" +:+ sq +:+ "); el.className = "
     +:+ dq +:+ "wide card" +:+ dq)
  = ["open"; "wide"; "card"]
  /\ updateLine "app.js"
       ("el.classList.add(" +:+ sq +:+ "open" +:+ sq +:+ "); el.className = "
        +:+ dq +:+ "wide card" +:+ dq) exampleMap false
     = Some ("el.classList.add(" +:+ dq +:+ "open" +:+ dq +:+ "); el.className = "
             +:+ sq +:+ "wide card" +:+ sq).
Proof. split; vm_compute; reflexivity. Qed.

(** A script line with [querySelector] calls only, none of whose names
    is a key, is returned unchanged. *)
Example querySelector_line_unchanged :
  updateLine "app.js"
    ("document.querySelectorAll(" +:+ dq +:+ ".card.title" +:+ dq +:+ ")")
    exampleMap false
  = Some ("document.querySelectorAll(" +:+ dq +:+ ".card.title" +:+ dq +:+ ")").
Proof. vm_compute. reflexivity. Qed.

(** C9 (stylesheet frame property), evaluated on the code.  With
    foo -> a, the line [.foobar .foo] becomes [.abar .foo]: the
    replacement goes to the first place where the text [.foo] occurs,
    inside the span [.foobar] whose identifier is not mapped, and the span
    [.foo] stays.  With a -> b and b -> c, the line [.a .b] becomes
    [.c .b]: the second replacement hits the result of the first. *)
Theorem updateCSSClasses_replaces_first_occurrence :
  updateCSSClasses ".foobar .foo" (<["foo" := "a"]> ∅) = Some ".abar .foo"
  /\ updateCSSClasses ".a .b" (<["a" := "b"]> (<["b" := "c"]> ∅))
     = Some ".c .b".
Proof. split; vm_compute; reflexivity. Qed.

(** C10 (line endings), as stated: an empty file is rewritten to an empty
    file, which does not end in a newline. *)
Lemma renameClassesInFile_empty_file :
  renameClassesInFile "a.css" ∅ false (<["a.css" := EmptyString]> ∅)
  = Some (<["a.css" := EmptyString]> ∅)
  /\ Strings.HasSuffix EmptyString LF = false.
Proof. split; vm_compute; reflexivity. Qed.

(** C10 (line endings), amended: for a file whose lines fit the scanner's
    buffer, the rewritten file is every line that was read, without the CR
    of a CRLF ending, rewritten and followed by one LF; so it ends in a
    newline when at least one line was read, and it is empty when none
    was; this does not depend on what the class map holds. *)
Theorem renameClassesInFile_line_endings (path : string)
    (classMap : gmap string string) (allowDuplicates : bool)
    (fs : gmap string string) (lines : list (string * bool)) (last : string) :
  fs !! path = Some (fileText lines last) ->
  forallb lineFits lines = true -> lastFits last = true ->
  exists (fs' : gmap string string) (written : list string),
    renameClassesInFile path classMap allowDuplicates fs = Some fs'
    /\ Forall2 (fun l u => updateLine path l classMap allowDuplicates = Some u)
         (linesRead lines last) written
    /\ fs' !! path = Some (writeLines written)
    /\ (linesRead lines last <> [] ->
        Strings.HasSuffix (writeLines written) LF = true)
    /\ (linesRead lines last = [] -> fs' !! path = Some EmptyString).
Proof.
  intros Hfs Hlines Hlast.
  unfold renameClassesInFile, renameClassesInFileWith. rewrite Hfs.
  rewrite tokens_fileText by done.
  destruct (forEach_written
              (fun l => updateLine path l classMap allowDuplicates)
              (linesRead lines last) EmptyString) as (us & Hus & ->).
  { intros l. apply updateLine_total. }
  simpl. eexists _, us. split; [done|]. split; [done|].
  rewrite lookup_insert_eq. split; [done|]. split.
  - intros Hne. apply writeLines_ends_LF. intros ->.
    apply Forall2_nil_inv_r in Hus. done.
  - intros Hnil. rewrite Hnil in Hus. by apply Forall2_nil_inv_l in Hus as ->.
Qed.

Lemma renameClassesInFile_line_endings_witness :
  (<["a.css" := fileText [(".x {}", true); ("p {}", false)] ".y"]> ∅ : gmap string string)
    !! "a.css" = Some (fileText [(".x {}", true); ("p {}", false)] ".y")
  /\ forallb lineFits [(".x {}", true); ("p {}", false)] = true
  /\ lastFits ".y" = true
  /\ exists (fs' : gmap string string) (written : list string),
       renameClassesInFile "a.css" ∅ false
         (<["a.css" := fileText [(".x {}", true); ("p {}", false)] ".y"]> ∅)
       = Some fs'
       /\ Forall2 (fun l u => updateLine "a.css" l ∅ false = Some u)
            (linesRead [(".x {}", true); ("p {}", false)] ".y") written
       /\ fs' !! "a.css" = Some (writeLines written)
       /\ (linesRead [(".x {}", true); ("p {}", false)] ".y" <> [] ->
           Strings.HasSuffix (writeLines written) LF = true)
       /\ (linesRead [(".x {}", true); ("p {}", false)] ".y" = [] ->
           fs' !! "a.css" = Some EmptyString).
Proof.
  split; [reflexivity|]. split; [reflexivity|]. split; [reflexivity|].
  apply (renameClassesInFile_line_endings "a.css" ∅ false
           (<["a.css" := fileText [(".x {}", true); ("p {}", false)] ".y"]> ∅)
           [(".x {}", true); ("p {}", false)] ".y");
    reflexivity.
Defined.

(** A stylesheet with CRLF line endings and no final line ending is
    rewritten with LF endings throughout, under an empty class map. *)
Example renameClassesInFile_crlf :
  renameClassesInFile "a.css" ∅ false
    (<["a.css" := ".x {}" +:+ CR +:+ LF +:+ ".y {}"]> ∅)
  = Some (<["a.css" := ".x {}" +:+ LF +:+ ".y {}" +:+ LF]> ∅).
Proof. vm_compute. reflexivity. Qed.

(** * Lemmas on the rest of the code *)

(** ** [uniqueClasses] *)
Section UniqueFacts.
Implicit Types (classes unique : list string) (seen : gset string).

Lemma filter_filter_seen seen c (l : list string) :
  c ∈ seen ->
  filter (fun y => y ∉ seen) (filter (fun y => y <> c) l)
  = filter (fun y => y ∉ seen) l.
Proof.
  intros Hc. induction l as [|x l IH]; [done|].
  rewrite !filter_cons. destruct (decide (x <> c)) as [Hx|Hx].
  - rewrite filter_cons. destruct (decide (x ∉ seen)); by rewrite IH.
  - apply dec_stable in Hx as ->.
    destruct (decide (c ∉ seen)); [done | by rewrite IH].
Qed.

Lemma filter_filter_insert seen c (l : list string) :
  filter (fun y => y ∉ seen) (filter (fun y => y <> c) l)
  = filter (fun y => y ∉ ({[c]} ∪ seen : gset string)) l.
Proof.
  induction l as [|x l IH]; [done|].
  rewrite !filter_cons. destruct (decide (x <> c)) as [Hx|Hx].
  - rewrite filter_cons.
    destruct (decide (x ∉ seen)), (decide (x ∉ {[c]} ∪ seen));
      try set_solver; by rewrite IH.
  - apply dec_stable in Hx as ->.
    destruct (decide (c ∉ {[c]} ∪ seen)); [set_solver | by rewrite IH].
Qed.

Lemma uniqueClasses_go_eq classes seen unique :
  uniqueClasses_go classes seen unique
  = unique ++ filter (fun y => y ∉ seen) (uniqueClasses classes).
Proof.
  unfold uniqueClasses. revert seen unique.
  induction classes as [|c classes IH]; intros seen unique; simpl.
  - by rewrite app_nil_r.
  - destruct (decide (c ∈ ∅)) as [Hc|_]; [set_solver|].
    rewrite (IH ({[c]} ∪ ∅) ([] ++ [c])). simpl.
    destruct (decide (c ∈ seen)) as [Hin|Hnin].
    + rewrite IH, filter_cons. destruct (decide (c ∉ seen)); [done|].
      rewrite <- (filter_filter_seen seen c) by done. do 2 f_equal.
      apply list_filter_iff. set_solver.
    + rewrite IH, filter_cons. destruct (decide (c ∉ seen)); [|done].
      rewrite <- app_assoc. simpl. do 2 f_equal.
      rewrite <- filter_filter_insert. f_equal.
      apply list_filter_iff. set_solver.
Qed.

Lemma uniqueClasses_cons c classes :
  uniqueClasses (c :: classes)
  = c :: filter (fun y => y <> c) (uniqueClasses classes).
Proof.
  unfold uniqueClasses at 1. simpl.
  destruct (decide (c ∈ ∅)) as [Hc|_]; [set_solver|].
  rewrite uniqueClasses_go_eq. simpl. f_equal.
  apply list_filter_iff. set_solver.
Qed.

Lemma uniqueClasses_elem classes x : x ∈ uniqueClasses classes <-> x ∈ classes.
Proof.
  induction classes as [|c classes IH]; [done|].
  rewrite uniqueClasses_cons, !elem_of_cons, list_elem_of_filter, IH.
  destruct (decide (x = c)); naive_solver.
Qed.

Lemma uniqueClasses_NoDup classes : NoDup (uniqueClasses classes).
Proof.
  induction classes as [|c classes IH]; [constructor|].
  rewrite uniqueClasses_cons. constructor.
  - rewrite list_elem_of_filter. naive_solver.
  - by apply NoDup_filter.
Qed.

Lemma uniqueClasses_id classes : NoDup classes -> uniqueClasses classes = classes.
Proof.
  induction 1 as [|c classes Hc Hnd IH]; [done|].
  rewrite uniqueClasses_cons, IH. f_equal.
  clear IH Hnd. induction classes as [|x classes IH]; [done|].
  apply not_elem_of_cons in Hc as [Hne Hc].
  rewrite filter_cons_True by done. f_equal. by apply IH.
Qed.
End UniqueFacts.

(** ** [filepath.Ext] and [isSupportedFile] *)
Section ExtFacts.
Implicit Types (path base e cur : string).

Lemma ext_go_plain e cur :
  allChars plainChar e = true -> Filepath.ext_go e cur = cur.
Proof.
  revert cur. induction e as [|a e IH]; intros cur H; [done|].
  simpl in H. apply andb_true_iff in H as [Ha He].
  apply andb_true_iff in Ha as [H1%negb_true_iff H2%negb_true_iff].
  simpl. rewrite H1, H2. by apply IH.
Qed.

Lemma ext_go_app base e cur :
  allChars plainChar e = true ->
  Filepath.ext_go (base +:+ String "." e) cur = String "." e.
Proof.
  intros He. revert cur. induction base as [|a base IH]; intros cur.
  - simpl. by apply ext_go_plain.
  - simpl. destruct (Ascii.eqb a "/"); [apply IH|].
    destruct (Ascii.eqb a "."); apply IH.
Qed.

Lemma ext_go_suffix path cur :
  Filepath.ext_go path cur = cur
  \/ exists base, path = base +:+ Filepath.ext_go path cur.
Proof.
  revert cur. induction path as [|a path IH]; intros cur; [by left|].
  simpl. destruct (Ascii.eqb a "/").
  - right. destruct (IH EmptyString) as [->|[base Hb]].
    + exists (String a path). by rewrite str_app_nil_r.
    + exists (String a base). simpl. by rewrite <- Hb.
  - destruct (Ascii.eqb a ".").
    + right. destruct (IH (String a path)) as [->|[base Hb]].
      * by exists EmptyString.
      * exists (String a base). simpl. by rewrite <- Hb.
    + destruct (IH cur) as [->|[base Hb]]; [by left|].
      right. exists (String a base). simpl. by rewrite <- Hb.
Qed.

Lemma Ext_suffix path : exists base, path = base +:+ Filepath.Ext path.
Proof.
  unfold Filepath.Ext. destruct (ext_go_suffix path EmptyString) as [->|H].
  - exists path. by rewrite str_app_nil_r.
  - done.
Qed.

Lemma Ext_app base e :
  allChars plainChar e = true -> Filepath.Ext (base +:+ String "." e) = String "." e.
Proof. apply ext_go_app. Qed.

Lemma HasSuffix_Ext path e :
  allChars plainChar e = true ->
  Strings.HasSuffix path (String "." e) = String.eqb (Filepath.Ext path) (String "." e).
Proof.
  intros He. destruct (String.eqb_spec (Filepath.Ext path) (String "." e)) as [E|E].
  - destruct (Ext_suffix path) as [base Hb]. rewrite E in Hb. rewrite Hb.
    apply HasSuffix_app.
  - destruct (Strings.HasSuffix path (String "." e)) eqn:H; [|done].
    apply HasSuffix_spec in H as [H _]. rewrite H in E.
    by rewrite Ext_app in E.
Qed.

Lemma isSupportedFile_suffix path :
  isSupportedFile path
  = Strings.HasSuffix path ".html" || Strings.HasSuffix path ".css"
    || Strings.HasSuffix path ".js" || Strings.HasSuffix path ".php".
Proof. unfold isSupportedFile. by rewrite !HasSuffix_Ext. Qed.

Lemma isSupportedFile_tmp path : isSupportedFile (path +:+ ".tmp") = false.
Proof. unfold isSupportedFile. by rewrite (Ext_app path "tmp"). Qed.

Lemma path_tmp_ne path : path +:+ ".tmp" <> path.
Proof.
  intros H. apply (f_equal String.length) in H.
  rewrite str_length_app in H. simpl in H. lia.
Qed.
End ExtFacts.

(** ** The collectors as counting loops *)
Section CollectFacts.
Implicit Types (classCount : gmap string Z) (names : list string).

Lemma foldl_join {A B : Type} (f : B -> A -> B) (b : B) (ls : list (list A)) :
  foldl (fun acc l => foldl f acc l) b ls = foldl f b (mjoin ls).
Proof.
  revert b. induction ls as [|l ls IH]; intros b; simpl; [done|].
  by rewrite IH, foldl_app.
Qed.

Lemma foldl_fmap_join {A B C : Type} (f : B -> A -> B) (h : C -> list A)
    (b : B) (l : list C) :
  foldl (fun acc x => foldl f acc (h x)) b l = foldl f b (mjoin (h <$> l)).
Proof.
  revert b. induction l as [|x l IH]; intros b; simpl; [done|].
  by rewrite IH, foldl_app.
Qed.

Lemma forEach_fold {A B C : Type} (f : B -> A -> B) (h : C -> list A)
    (body : B -> C -> option B) (l : list C) (b : B) :
  (forall b x, x ∈ l -> body b x = Some (foldl f b (h x))) ->
  forEach body l b = Some (foldl f b (mjoin (h <$> l))).
Proof.
  revert b. induction l as [|x l IH]; intros b H; simpl; [done|].
  rewrite H by apply list_elem_of_here. simpl.
  rewrite IH by (intros; apply H; by apply list_elem_of_further).
  by rewrite foldl_app.
Qed.

Lemma extractClassesFromHTML_names line classCount :
  extractClassesFromHTML line classCount
  = foldl increment classCount (htmlNames line).
Proof. apply foldl_fmap_join. Qed.

Lemma extractClassesFromCSS_names line classCount :
  extractClassesFromCSS line classCount
  = Some (foldl increment classCount (cssClassNames line)).
Proof.
  unfold extractClassesFromCSS, cssClassNames.
  assert (forall m, m ∈ regexp2FindAllString cssClassRegex line ->
                    is_Some (Strings.slice_from m 1)) as Hm.
  { intros m Hm.
    pose proof (cssClassRegex_nonempty line m
                  (regexp2FindAllString_isMatch _ _ _ Hm)).
    rewrite slice_from_ok by (unfold Strings.len; lia). by eexists. }
  revert classCount.
  induction (regexp2FindAllString cssClassRegex line) as [|m ms IH];
    intros classCount; simpl; [done|].
  destruct (Hm m) as [c Hc]; [apply list_elem_of_here|].
  rewrite Hc. simpl. apply IH. intros; apply Hm. by apply list_elem_of_further.
Qed.

Lemma Split_nonempty s c sep : Strings.Split s (String c sep) <> [].
Proof. apply split_go_nonempty. Qed.

Lemma rest1_tail {A : Type} (l : list A) : l <> [] -> rest1 l = Some (tail l).
Proof. by destruct l. Qed.

Lemma extractClassesFromClassList_total line m :
  m ∈ regexp2FindAllString jsClassListRegex line ->
  is_Some (extractClassesFromClassList m).
Proof.
  intros Hm. unfold extractClassesFromClassList.
  apply regexp2FindAllString_isMatch, isMatchOf_matches,
    jsClassListRegex_shape in Hm as (a & b & ->).
  pose proof (Index_first "(" a (b +:+ ")")) as Hi.
  pose proof (LastIndex_last ")" (a +:+ "(" +:+ b) EmptyString) as Hl.
  rewrite str_app_nil_r, !str_app_assoc in Hl.
  assert (Strings.len (a +:+ "(" +:+ b) = Strings.len a + 1 + Strings.len b) as Hlen.
  { unfold Strings.len. rewrite !str_length_app. simpl. lia. }
  rewrite Hlen in Hl.
  pose proof (Nat2Z.is_nonneg (String.length b)) as Hb. fold (Strings.len b) in Hb.
  set (m := a +:+ "(" +:+ b +:+ ")") in *.
  destruct (slice_ok m (Strings.Index m "(" + 1) (Strings.LastIndex m ")"))
    as [x Hx]; [lia..|].
  eapply is_Some_bind; [exact Hx|]. by eexists.
Qed.

Lemma extractClassesFromJS_names line classCount :
  extractClassesFromJS line classCount
  = Some (foldl increment classCount (jsNames line)).
Proof.
  unfold extractClassesFromJS, jsNames.
  rewrite (forEach_fold increment (fun m => tail (Strings.Split m "."))).
  2:{ intros b m _. by rewrite rest1_tail by apply Split_nonempty. }
  simpl.
  rewrite (forEach_fold increment
             (fun m => default [] (extractClassesFromClassList m))).
  2:{ intros b m Hm.
      by destruct (extractClassesFromClassList_total line m Hm) as [names ->]. }
  simpl. by rewrite foldl_fmap_join, !foldl_app.
Qed.

Lemma processFile_names path input classCount :
  processFile path input classCount
  = Some (foldl increment classCount (fileNames path input)).
Proof.
  unfold processFile, fileNames. apply forEach_fold. intros b line _.
  unfold lineNames. destruct (String.eqb _ ".css").
  - apply extractClassesFromCSS_names.
  - destruct (String.eqb _ ".js"); [apply extractClassesFromJS_names|].
    by rewrite extractClassesFromHTML_names.
Qed.

Lemma collectPass_names paths fs classCount :
  collectPass paths fs classCount
  = Some (foldl increment classCount (corpusNames paths fs)).
Proof.
  unfold collectPass, corpusNames. apply forEach_fold. intros b path _.
  unfold collectFile. destruct (isSupportedFile path); [|done].
  destruct (fs !! path); [apply processFile_names | done].
Qed.

(** *** Counting *)

Lemma wrap64_small z : - 2 ^ 63 <= z < 2 ^ 63 -> wrap64 z = z.
Proof. intros H. unfold wrap64. rewrite Z.mod_small; lia. Qed.

Lemma increment_comm classCount x y :
  increment (increment classCount x) y = increment (increment classCount y) x.
Proof.
  destruct (decide (x = y)) as [->|Hne]; [done|].
  unfold increment. rewrite !lookup_insert_ne by done.
  by apply insert_insert_ne.
Qed.

Lemma foldl_increment_perm names1 names2 :
  names1 ≡ₚ names2 -> forall classCount,
  foldl increment classCount names1 = foldl increment classCount names2.
Proof.
  induction 1 as [|x l1 l2 _ IH|x y l|l1 l2 l3 _ IH1 _ IH2]; intros cc; simpl.
  - done.
  - apply IH.
  - by rewrite increment_comm.
  - by rewrite IH1.
Qed.

Lemma occurrences_cons k x names :
  occurrences k (x :: names)
  = (if decide (x = k) then 1 else 0) + occurrences k names.
Proof.
  unfold occurrences. rewrite filter_cons.
  destruct (decide (x = k)); simpl; lia.
Qed.

Lemma occurrences_nonneg k names : 0 <= occurrences k names.
Proof. unfold occurrences. lia. Qed.

Lemma foldl_increment_other names classCount k :
  occurrences k names = 0 ->
  foldl increment classCount names !! k = classCount !! k.
Proof.
  revert classCount. induction names as [|x names IH]; intros cc H; [done|].
  rewrite occurrences_cons in H. pose proof (occurrences_nonneg k names).
  destruct (decide (x = k)); [lia|]. simpl. rewrite IH by lia.
  unfold increment. by rewrite lookup_insert_ne.
Qed.

Lemma foldl_increment_count names classCount k :
  0 < occurrences k names ->
  - 2 ^ 63 <= default 0 (classCount !! k) ->
  default 0 (classCount !! k) + occurrences k names < 2 ^ 63 ->
  foldl increment classCount names !! k
  = Some (default 0 (classCount !! k) + occurrences k names).
Proof.
  revert classCount. induction names as [|x names IH]; intros cc Hn Hlo Hhi.
  - unfold occurrences in Hn. simpl in Hn. lia.
  - rewrite occurrences_cons in *. pose proof (occurrences_nonneg k names).
    simpl. destruct (decide (x = k)) as [->|Hne].
    + assert (increment cc k !! k = Some (default 0 (cc !! k) + 1)) as Hk.
      { unfold increment. rewrite lookup_insert_eq, wrap64_small; [done|lia]. }
      destruct (Z.eq_dec (occurrences k names) 0) as [E|E].
      * rewrite foldl_increment_other, Hk by done. f_equal. lia.
      * rewrite IH; rewrite ?Hk; simpl; [f_equal; lia | lia..].
    + assert (increment cc x !! k = cc !! k) as Hk.
      { unfold increment. by rewrite lookup_insert_ne. }
      rewrite IH; rewrite ?Hk; [f_equal; lia | lia..].
Qed.
End CollectFacts.

(** ** The rewrite pass and the file system *)
Section FileSystemFacts.
Implicit Types (fs : gmap string string) (classMap : gmap string string).

Lemma renameClassesInFile_frame path classMap allowDuplicates fs :
  exists fs',
    renameClassesInFile path classMap allowDuplicates fs = Some fs'
    /\ (fs !! path = None -> fs' = fs)
    /\ (is_Some (fs !! path) ->
        is_Some (fs' !! path) /\ fs' !! (path +:+ ".tmp") = None)
    /\ (forall p, p <> path -> p <> path +:+ ".tmp" -> fs' !! p = fs !! p).
Proof.
  unfold renameClassesInFile, renameClassesInFileWith.
  destruct (fs !! path) as [input|] eqn:Hin.
  - destruct (forEach_written
                (fun l => updateLine path l classMap allowDuplicates)
                (Bufio.tokens input) EmptyString) as (us & _ & ->).
    { intros l. apply updateLine_total. }
    simpl. eexists. split; [done|]. split; [done|]. split.
    + intros _. rewrite lookup_insert_eq. split; [by eexists|].
      rewrite lookup_insert_ne by (intros H; symmetry in H; by apply path_tmp_ne in H).
      apply lookup_delete_eq.
    + intros p Hp Htmp.
      by rewrite lookup_insert_ne, lookup_delete_ne, lookup_insert_ne.
  - exists fs. split; [done|]. split; [done|]. split; [|done].
    intros [? ?]. done.
Qed.

Lemma rewritePass_frame paths classMap allowDuplicates fs :
  exists fs',
    rewritePass paths classMap allowDuplicates fs = Some fs'
    /\ forall p,
         (forall q, q ∈ paths -> isSupportedFile q = true ->
                    p <> q /\ p <> q +:+ ".tmp") ->
         fs' !! p = fs !! p.
Proof.
  unfold rewritePass. revert fs.
  induction paths as [|q paths IH]; intros fs; simpl.
  - by exists fs.
  - destruct (isSupportedFile q) eqn:Hq.
    + destruct (renameClassesInFile_frame q classMap allowDuplicates fs)
        as (fs1 & -> & _ & _ & Hframe). simpl.
      destruct (IH fs1) as (fs' & -> & Hrest). exists fs'. split; [done|].
      intros p Hp. rewrite Hrest.
      * destruct (Hp q) as [? ?]; [apply list_elem_of_here | done |].
        by apply Hframe.
      * intros q' Hq'. apply Hp. by apply list_elem_of_further.
    + simpl. destruct (IH fs) as (fs' & -> & Hrest). exists fs'. split; [done|].
      intros p Hp. apply Hrest. intros q' Hq'. apply Hp.
      by apply list_elem_of_further.
Qed.

Lemma main_frame sort_Slice rangeCount rangeMap paths preview allowDuplicates fs :
  exists out fs',
    main sort_Slice rangeCount rangeMap paths preview allowDuplicates fs
    = Some (out, fs')
    /\ (preview = true -> fs' = fs)
    /\ (preview = false -> out = EmptyString)
    /\ forall p,
         (forall q, q ∈ paths -> isSupportedFile q = true ->
                    p <> q /\ p <> q +:+ ".tmp") ->
         fs' !! p = fs !! p.
Proof.
  unfold main. rewrite collectPass_names. simpl.
  destruct preview.
  - eexists _, fs. by repeat split.
  - destruct (rewritePass_frame paths
                (generateClassMap
                   (rankClasses sort_Slice
                      (rangeCount (foldl increment ∅ (corpusNames paths fs)))))
                allowDuplicates fs) as (fs' & -> & Hframe).
    simpl. eexists _, fs'. by repeat split.
Qed.
End FileSystemFacts.

(** ** Lines without a construct *)
Section KeywordFacts.
Implicit Types (line m kw : string).

Lemma isMatchOf_substring re line m :
  isMatchOf re line m -> exists pre post, line = pre +:+ m +:+ post.
Proof.
  intros (i & n & _ & ->).
  exists (Strings.take i line), (Strings.drop n (Strings.drop i line)).
  by rewrite !str_take_drop.
Qed.

Lemma matches_Str_inv s w : matches (Str s) w -> w = s.
Proof.
  revert w. induction s as [|a s IH]; intros w H; simpl in H.
  - by inversion H.
  - apply matches_Cat_inv in H as (w1 & w2 & -> & H1 & H2).
    apply matches_Lit_inv in H1 as ->. apply IH in H2 as ->. done.
Qed.

Lemma matches_Seq_Str kw rs m :
  rs <> [] -> matches (Seq (Str kw :: rs)) m -> exists w, m = kw +:+ w.
Proof.
  intros Hrs H. apply matches_Seq_cons in H as (w1 & w2 & -> & H1 & _); [|done].
  apply matches_Str_inv in H1 as ->. by eexists.
Qed.

Lemma Contains_app pre kw post : Contains (pre +:+ kw +:+ post) kw = true.
Proof. unfold Contains. apply Z.leb_le. apply Index_first. Qed.

Lemma no_keyword_no_match re kw line :
  (forall m, matches re m -> exists w, m = kw +:+ w) ->
  Contains line kw = false -> regexp2FindAllString re line = [].
Proof.
  intros Hre Hkw.
  destruct (regexp2FindAllString re line) as [|m ms] eqn:E; [done|].
  assert (m ∈ regexp2FindAllString re line) as Hm
    by (rewrite E; apply list_elem_of_here).
  apply regexp2FindAllString_isMatch in Hm as Hmatch.
  apply isMatchOf_substring in Hmatch as (pre & post & ->).
  apply regexp2FindAllString_isMatch, isMatchOf_matches, Hre in Hm as [w ->].
  rewrite str_app_assoc in Hkw. by rewrite Contains_app in Hkw.
Qed.

Lemma htmlClassRegex_keyword m :
  matches htmlClassRegex m -> exists w, m = "class" +:+ w.
Proof. by apply matches_Seq_Str. Qed.

Lemma cssClassRegex_keyword m :
  matches cssClassRegex m -> exists w, m = "." +:+ w.
Proof.
  unfold cssClassRegex. intros H.
  apply matches_Seq_cons in H as (w1 & w2 & -> & H1 & _); [|done].
  apply matches_Lit_inv in H1 as ->. by eexists.
Qed.

Lemma jsQuerySelectorRegex_keyword m :
  matches jsQuerySelectorRegex m -> exists w, m = "querySelector" +:+ w.
Proof. by apply matches_Seq_Str. Qed.

Lemma jsClassListRegex_keyword m :
  matches jsClassListRegex m -> exists w, m = "classList" +:+ w.
Proof. by apply matches_Seq_Str. Qed.

Lemma jsClassNameRegex_keyword m :
  matches jsClassNameRegex m -> exists w, m = "className" +:+ w.
Proof. by apply matches_Seq_Str. Qed.
End KeywordFacts.

(** ** The characters of class names and short names *)
Section CharFacts.
Implicit Types (p : ascii -> bool) (w : string).

Lemma allChars_app p w1 w2 :
  allChars p (w1 +:+ w2) = allChars p w1 && allChars p w2.
Proof.
  induction w1 as [|a w1 IH]; simpl; [done|]. by rewrite IH, andb_assoc.
Qed.

Lemma allChars_impl p q w :
  (forall c, p c = true -> q c = true) ->
  allChars p w = true -> allChars q w = true.
Proof.
  intros Hpq. induction w as [|a w IH]; simpl; [done|].
  intros [Ha Hw]%andb_true_iff. by rewrite (Hpq a Ha), IH.
Qed.

Lemma matches_Many_Class p w :
  matches (Many (Class p)) w -> allChars p w = true.
Proof.
  intros H. remember (Many (Class p)) as r eqn:Hr.
  induction H as [| | | | | |r' w1 w2 H1 _ H2 IH]; try done.
  injection Hr as ->. rewrite allChars_app, IH by done.
  inversion H1; subst. simpl. by rewrite H0.
Qed.

Lemma allChars_matches_Many p w :
  allChars p w = true -> matches (Many (Class p)) w.
Proof.
  induction w as [|a w IH]; simpl; [constructor|].
  intros [Ha Hw]%andb_true_iff.
  apply (matches_Many_cons (Class p) (String a EmptyString) w);
    [by constructor | by apply IH].
Qed.

Lemma cssClassRegex_inv m :
  matches cssClassRegex m <->
  exists a w, m = String "." (String a w) /\ isAlpha_ a = true
              /\ allChars (fun c => isWord c || is_ "-" c) w = true.
Proof.
  unfold cssClassRegex. split.
  - intros H.
    apply matches_Seq_cons in H as (w1 & w2 & -> & H1 & H); [|done].
    apply matches_Seq_cons in H as (w3 & w4 & -> & H3 & H4); [|done].
    apply matches_Lit_inv in H1 as ->. inversion H3; subst.
    apply matches_Many_Class in H4. by eexists _, _.
  - intros (a & w & -> & Ha & Hw).
    apply (matches_Cat _ _ (String "." EmptyString) (String a w)).
    + constructor. apply Ascii.eqb_refl.
    + apply (matches_Cat _ _ (String a EmptyString) w); [by constructor|].
      by apply allChars_matches_Many.
Qed.

Lemma cssClassNames_shape line c :
  c ∈ cssClassNames line ->
  exists a w, c = String a w /\ isAlpha_ a = true
              /\ allChars (fun c => isWord c || is_ "-" c) w = true.
Proof.
  unfold cssClassNames. intros (m & Hm & Hc)%list_elem_of_omap.
  apply regexp2FindAllString_isMatch, isMatchOf_matches, cssClassRegex_inv
    in Hm as (a & w & -> & Ha & Hw).
  rewrite slice_from_ok in Hc by (unfold Strings.len; simpl; lia).
  injection Hc as <-. by exists a, w.
Qed.

Lemma allChars_cons p a w : allChars p (String a w) = p a && allChars p w.
Proof. done. Qed.

Lemma fmt_go_S fuel u acc :
  Fmt.fmt_go (S fuel) u acc
  = if 10 <=? u
    then Fmt.fmt_go fuel (u / 10) (String (Fmt.digit (u mod 10)) acc)
    else String (Fmt.digit u) acc.
Proof. done. Qed.

End CharFacts.

(** ** [strings.Fields] and [strings.Trim] *)
Section FieldsFacts.

Lemma fields_go_spec s :
  allChars noSpace (Strings.fields_go s).1 = true
  /\ Forall (fun w => w <> EmptyString /\ allChars noSpace w = true)
       (Strings.fields_go s).2.
Proof.
  induction s as [|a s [IH1 IH2]]; simpl; [by split|].
  destruct (Strings.fields_go s) as [w fs]. simpl in *.
  destruct (Strings.isSpace a) eqn:Ha; simpl.
  - split; [done|]. destruct w; [done|]. by constructor.
  - split; [|done]. unfold noSpace at 1. by rewrite Ha.
Qed.

Lemma Fields_spec s :
  Forall (fun w => w <> EmptyString /\ allChars noSpace w = true)
    (Strings.Fields s).
Proof.
  unfold Strings.Fields. destruct (fields_go_spec s) as [H1 H2].
  destruct (Strings.fields_go s) as [w fs]. simpl in *.
  destruct w; [done|]. by constructor.
Qed.

Lemma htmlNames_spec line :
  Forall (fun w => w <> EmptyString /\ allChars noSpace w = true)
    (htmlNames line).
Proof.
  unfold htmlNames. apply Forall_forall. intros w Hw.
  apply list_elem_of_join in Hw as (ws & Hw & Hws).
  apply list_elem_of_fmap in Hws as (m & -> & _).
  pose proof (Fields_spec m) as H. rewrite Forall_forall in H. by apply H.
Qed.
End FieldsFacts.

(** ** The lines that the scanner hands out *)
Section ScannerMore.
Implicit Types (s l tail : string).

Lemma tokens_lines_tail lines tail :
  forallb lineFits lines = true ->
  Bufio.tokens (fileText lines tail) = lines.*1 ++ Bufio.tokens tail.
Proof.
  intros Hlines. unfold Bufio.tokens.
  induction lines as [|[l crlf] lines IH]; [done|].
  change (forallb lineFits ((l, crlf) :: lines))
    with (lineFits (l, crlf) && forallb lineFits lines) in Hlines.
  apply andb_true_iff in Hlines as [Hl Hlines].
  apply andb_true_iff in Hl as [Hl Hcr].
  apply andb_true_iff in Hl as [Hlf Hlen%Z.ltb_lt].
  apply negb_true_iff in Hlf. specialize (IH Hlines).
  change (fileText ((l, crlf) :: lines) tail)
    with (l +:+ lineEnding crlf +:+ fileText lines tail).
  change (((l, crlf) :: lines).*1) with (l :: lines.*1).
  rewrite <- app_comm_cons, <- IH.
  destruct crlf.
  - rewrite fileText_crlf, rawLines_line.
    + rewrite whileFits_cons by (rewrite len_app_CR; lia).
      by rewrite fmap_cons, dropCR_CR.
    + rewrite containsChar_app, Hlf. done.
  - change (lineEnding false +:+ fileText lines tail)
      with (String lf_c (fileText lines tail)).
    rewrite rawLines_line by done.
    rewrite whileFits_cons by lia.
    apply negb_true_iff in Hcr.
    by rewrite fmap_cons, dropCR_other.
Qed.

Lemma tokens_too_long tail :
  Bufio.MaxScanTokenSize <= Strings.len (Bufio.breakLine tail).1 ->
  Bufio.tokens tail = [].
Proof.
  intros Hlong. rewrite tokens_Scan. unfold Bufio.Scan.
  destruct tail as [|a tail]; [done|].
  destruct (Bufio.breakLine (String a tail)) as [l r]. simpl in Hlong.
  by destruct (Z.leb_spec Bufio.MaxScanTokenSize (Strings.len l)); [|lia].
Qed.
End ScannerMore.

(** ** The arguments of a [classList] call *)
Section TrimFacts.
Implicit Types (f : ascii -> bool) (s t : string).

Lemma trimLeftFunc_head f s a :
  headChar (Strings.trimLeftFunc f s) = Some a -> f a = false.
Proof.
  induction s as [|b s IH]; simpl; [done|].
  destruct (f b) eqn:Hb; [done|]. simpl. by intros [= <-].
Qed.

Lemma trimRightFunc_eq f a s :
  Strings.trimRightFunc f (String a s)
  = match Strings.trimRightFunc f s with
    | EmptyString => if f a then EmptyString else String a EmptyString
    | t => String a t
    end.
Proof. done. Qed.

Lemma trimRightFunc_last f s a :
  lastChar (Strings.trimRightFunc f s) = Some a -> f a = false.
Proof.
  induction s as [|b s IH]; [done|]. rewrite trimRightFunc_eq.
  destruct (Strings.trimRightFunc f s) as [|c t] eqn:E.
  - destruct (f b) eqn:Hb; [done|]. simpl. by intros [= <-].
  - intros H. apply IH. exact H.
Qed.

Lemma trimRightFunc_head f s a :
  headChar (Strings.trimRightFunc f s) = Some a -> headChar s = Some a.
Proof.
  destruct s as [|b s]; [done|]. rewrite trimRightFunc_eq.
  destruct (Strings.trimRightFunc f s); [destruct (f b)|]; done.
Qed.

Lemma Trim_ends s cutset a :
  (headChar (Strings.Trim s cutset) = Some a -> Strings.inCutset cutset a = false)
  /\ (lastChar (Strings.Trim s cutset) = Some a -> Strings.inCutset cutset a = false).
Proof.
  unfold Strings.Trim. split.
  - intros H%trimRightFunc_head. by eapply trimLeftFunc_head.
  - apply trimRightFunc_last.
Qed.

Lemma inCutset_quotes a : Strings.inCutset (dq +:+ sq) a = isQuote a.
Proof. by destruct a as [[] [] [] [] [] [] [] []]. Qed.

Lemma foldl_snoc_fmap {A B : Type} (g : A -> B) (l : list A) (acc : list B) :
  foldl (fun classes x => classes ++ [g x]) acc l = acc ++ (g <$> l).
Proof.
  revert acc. induction l as [|x l IH]; intros acc; simpl.
  - by rewrite app_nil_r.
  - by rewrite IH, <- app_assoc.
Qed.

Lemma extractClassesFromClassList_quotes m names :
  extractClassesFromClassList m = Some names ->
  Forall (fun c => (forall a, headChar c = Some a -> isQuote a = false)
                   /\ (forall a, lastChar c = Some a -> isQuote a = false)) names.
Proof.
  unfold extractClassesFromClassList.
  destruct (Strings.slice _ _ _) as [inside|]; [|done].
  change (Some (foldl (fun classes class =>
                  classes ++ [Strings.Trim (Strings.TrimSpace class) (dq +:+ sq)])
                [] (Strings.Split inside ",")) = Some names -> Forall
     (fun c => (forall a, headChar c = Some a -> isQuote a = false)
               /\ (forall a, lastChar c = Some a -> isQuote a = false)) names).
  intros [= <-]. rewrite foldl_snoc_fmap, app_nil_l.
  apply Forall_fmap, Forall_forall. intros c _.
  change (
    (forall a, headChar (Strings.Trim (Strings.TrimSpace c) (dq +:+ sq)) = Some a
               -> isQuote a = false)
    /\ (forall a, lastChar (Strings.Trim (Strings.TrimSpace c) (dq +:+ sq)) = Some a
                  -> isQuote a = false)).
  split; intros a Ha; rewrite <- inCutset_quotes;
    by destruct (Trim_ends (Strings.TrimSpace c) (dq +:+ sq) a) as [H1 H2]; auto.
Qed.
End TrimFacts.

(** ** The class map of any list of classes *)
Section ClassMapMore.
Implicit Types (classes : list ClassUsage) (classMap : gmap string string).

Lemma generateClassMap_go_last classes i classMap j c :
  classes !! j = Some c ->
  (forall j' c', (j < j')%nat -> classes !! j' = Some c' -> name c' <> name c) ->
  generateClassMap_go i classes classMap !! name c
  = Some (generateShortClassName (i + Z.of_nat j)).
Proof.
  revert i classMap j.
  induction classes as [|c0 classes IH]; intros i m j Hj Hlast; [done|].
  destruct j as [|j]; simpl in *.
  - injection Hj as ->. rewrite generateClassMap_go_notin.
    + rewrite lookup_insert_eq. do 2 f_equal. lia.
    + intros (c' & Hn & Hc')%list_elem_of_fmap.
      apply list_elem_of_lookup in Hc' as [j' Hj'].
      by apply (Hlast (S j') c'); [lia|..].
  - rewrite (IH _ _ j); [do 2 f_equal; lia | done |].
    intros j' c' Hlt Hj'. apply (Hlast (S j') c'); [lia|done].
Qed.

End ClassMapMore.

(** ** Lines without the text that a match begins with *)
Section KeywordFrame.
Implicit Types (line : string) (classMap : gmap string string).

Lemma jsClassListRegex_class m :
  matches jsClassListRegex m -> exists w, m = "class" +:+ w.
Proof.
  intros [w ->]%jsClassListRegex_keyword. by exists ("List" +:+ w).
Qed.

Lemma jsClassNameRegex_class m :
  matches jsClassNameRegex m -> exists w, m = "class" +:+ w.
Proof.
  intros [w ->]%jsClassNameRegex_keyword. by exists ("Name" +:+ w).
Qed.

Lemma noKeyword_css path line :
  Filepath.Ext path = ".css" -> noKeyword path line = true ->
  regexp2FindAllString cssClassRegex line = [].
Proof.
  unfold noKeyword, keywords. intros -> H. simpl in H.
  rewrite andb_true_r in H. apply negb_true_iff in H.
  by apply (no_keyword_no_match _ "."); [apply cssClassRegex_keyword|].
Qed.

Lemma noKeyword_js path line :
  Filepath.Ext path = ".js" -> noKeyword path line = true ->
  regexp2FindAllString jsQuerySelectorRegex line = []
  /\ regexp2FindAllString jsClassListRegex line = []
  /\ regexp2FindAllString jsClassNameRegex line = [].
Proof.
  unfold noKeyword, keywords. intros -> H. simpl in H.
  rewrite andb_true_r in H.
  apply andb_true_iff in H as [H1%negb_true_iff H2%negb_true_iff].
  split; [|split].
  - by apply (no_keyword_no_match _ "querySelector");
      [apply jsQuerySelectorRegex_keyword|].
  - by apply (no_keyword_no_match _ "class"); [apply jsClassListRegex_class|].
  - by apply (no_keyword_no_match _ "class"); [apply jsClassNameRegex_class|].
Qed.

Lemma noKeyword_html path line :
  Filepath.Ext path <> ".css" -> Filepath.Ext path <> ".js" ->
  noKeyword path line = true ->
  regexp2FindAllString htmlClassRegex line = [].
Proof.
  unfold noKeyword, keywords. intros Hc%String.eqb_neq Hj%String.eqb_neq.
  rewrite Hc, Hj. intros H. simpl in H.
  rewrite andb_true_r in H. apply negb_true_iff in H.
  by apply (no_keyword_no_match _ "class"); [apply htmlClassRegex_keyword|].
Qed.

Lemma updateLine_noKeyword path line classMap allowDuplicates :
  noKeyword path line = true ->
  updateLine path line classMap allowDuplicates = Some line.
Proof.
  intros H. unfold updateLine.
  destruct (String.eqb_spec (Filepath.Ext path) ".css") as [Hc|Hc].
  - unfold updateCSSClasses. by rewrite (noKeyword_css path).
  - destruct (String.eqb_spec (Filepath.Ext path) ".js") as [Hj|Hj].
    + destruct (noKeyword_js path line Hj H) as (H1 & H2 & H3).
      unfold updateJSClasses, updateJSQuerySelector. rewrite H1. simpl.
      unfold updateJSClassList. rewrite H2. simpl.
      unfold updateJSClassName. by rewrite H3.
    + unfold updateHTMLClasses. by rewrite (noKeyword_html path).
Qed.

Lemma lineNames_noKeyword path line :
  noKeyword path line = true -> lineNames path line = [].
Proof.
  intros H. unfold lineNames.
  destruct (String.eqb_spec (Filepath.Ext path) ".css") as [Hc|Hc].
  - unfold cssClassNames. by rewrite (noKeyword_css path).
  - destruct (String.eqb_spec (Filepath.Ext path) ".js") as [Hj|Hj].
    + destruct (noKeyword_js path line Hj H) as (H1 & H2 & H3).
      unfold jsNames. by rewrite H1, H2, H3.
    + unfold htmlNames. by rewrite (noKeyword_html path).
Qed.
End KeywordFrame.

(** ** Helpers for the statements below *)
Section ExtraHelpers.

Lemma uniqueClasses_sublist classes : uniqueClasses classes `sublist_of` classes.
Proof.
  induction classes as [|c classes IH]; [done|].
  rewrite uniqueClasses_cons. apply sublist_skip.
  etrans; [apply sublist_filter|]. done.
Qed.

Lemma corpusNames_perm paths1 paths2 fs :
  paths1 ≡ₚ paths2 -> corpusNames paths1 fs ≡ₚ corpusNames paths2 fs.
Proof. intros H. unfold corpusNames. by rewrite H. Qed.

Lemma occurrences_le_length k names :
  occurrences k names <= Z.of_nat (length names).
Proof.
  unfold occurrences. pose proof (length_filter (fun x => x = k) names). lia.
Qed.
End ExtraHelpers.

(** ** The keys of the usage table *)
Section TableKeys.

Lemma increment_dom classCount k :
  dom (increment classCount k) = {[k]} ∪ dom classCount.
Proof. unfold increment. apply dom_insert_L. Qed.

Lemma foldl_increment_dom names classCount :
  dom (foldl increment classCount names) = list_to_set names ∪ dom classCount.
Proof.
  revert classCount. induction names as [|k names IH]; intros classCount; simpl.
  - by rewrite (left_id_L ∅ (∪)).
  - rewrite IH, increment_dom. set_solver.
Qed.
End TableKeys.

(** ** Lower-case letters and digits *)
Section LowerDigit.

Lemma isLower_letter r :
  0 <= r < 26 -> isLower (ascii_of_nat (Z.to_nat (97 + r))) = true.
Proof.
  intros Hr. unfold isLower. rewrite nat_ascii_embedding by lia.
  apply andb_true_iff. split; apply Nat.leb_le; lia.
Qed.

Lemma isDigit_digit d : 0 <= d <= 9 -> isDigit (Fmt.digit d) = true.
Proof.
  intros Hd. unfold isDigit, Fmt.digit. rewrite nat_ascii_embedding by lia.
  apply andb_true_iff. split; apply Nat.leb_le; lia.
Qed.

Lemma allChars_isDigit_fmt_go fuel u acc :
  0 <= u -> allChars isDigit acc = true ->
  allChars isDigit (Fmt.fmt_go fuel u acc) = true.
Proof.
  revert u acc. induction fuel as [|fuel IH]; intros u acc Hu Hacc; [done|].
  rewrite fmt_go_S. destruct (Z.leb_spec 10 u).
  - apply IH; [apply Z.div_pos; lia|].
    rewrite allChars_cons, isDigit_digit, Hacc; [done|].
    pose proof (Z.mod_pos_bound u 10). lia.
  - by rewrite allChars_cons, isDigit_digit, Hacc by lia.
Qed.

Lemma isLower_isAlpha_ c : isLower c = true -> isAlpha_ c = true.
Proof. by destruct c as [[] [] [] [] [] [] [] []]. Qed.

Lemma isLower_isDigit_isWord c :
  isLower c || isDigit c = true -> isWord c || is_ "-" c = true.
Proof. by destruct c as [[] [] [] [] [] [] [] []]. Qed.

Lemma isDigit_lower_or_digit c :
  isDigit c = true -> isLower c || isDigit c = true.
Proof. intros ->. apply orb_true_r. Qed.

Lemma generateShortClassName_lower i :
  0 <= i ->
  exists a w, generateShortClassName i = String a w
              /\ isLower a = true
              /\ allChars (fun c => isLower c || isDigit c) w = true.
Proof.
  intros Hi. rewrite generateShortClassName_eq by done.
  pose proof (Z.mod_pos_bound i 26 ltac:(lia)).
  assert (0 <= i / 26) by (apply Z.div_pos; lia).
  eexists _, _. split; [done|]. split; [by apply isLower_letter|].
  destruct (i / 26 =? 0); [done|].
  destruct (Z.leb_spec (i / 26) 9).
  - eapply allChars_impl; [apply isDigit_lower_or_digit|].
    by apply allChars_isDigit_fmt_go.
  - rewrite allChars_cons. apply andb_true_iff. split; [done|].
    eapply allChars_impl; [apply isDigit_lower_or_digit|].
    apply allChars_isDigit_fmt_go; [lia|done].
Qed.
End LowerDigit.

(** ** [renameClassesInFile] and the operating system *)
Section OSFacts.

Lemma renameClassesInFileWith_frame created renamed path classMap
    allowDuplicates (fs : gmap string string) :
  exists fs',
    renameClassesInFileWith created renamed path classMap allowDuplicates fs
    = Some fs'
    /\ (fs !! path = None \/ created = false -> fs' = fs)
    /\ (is_Some (fs !! path) -> is_Some (fs' !! path))
    /\ (is_Some (fs !! path) -> created = true -> renamed = true ->
        fs' !! (path +:+ ".tmp") = None)
    /\ (is_Some (fs !! path) -> created = true -> renamed = false ->
        fs' !! path = fs !! path /\ is_Some (fs' !! (path +:+ ".tmp")))
    /\ (forall p, p <> path -> p <> path +:+ ".tmp" -> fs' !! p = fs !! p).
Proof.
  assert (path <> path +:+ ".tmp") as Hne
    by (intros H; symmetry in H; by apply path_tmp_ne in H).
  unfold renameClassesInFileWith. destruct (fs !! path) as [input|] eqn:Hin.
  - destruct created.
    + destruct (forEach_written
                  (fun l => updateLine path l classMap allowDuplicates)
                  (Bufio.tokens input) EmptyString) as (us & _ & ->).
      { intros l. apply updateLine_total. }
      simpl. destruct renamed.
      * eexists. split; [done|]. split; [by intros [|]|].
        split; [intros _; rewrite lookup_insert_eq; by eexists|].
        split; [intros _ _ _; rewrite lookup_insert_ne by done;
                apply lookup_delete_eq|].
        split; [done|]. intros p Hp Htmp.
        by rewrite lookup_insert_ne, lookup_delete_ne, lookup_insert_ne.
      * eexists. split; [done|]. split; [by intros [|]|].
        split; [intros _; rewrite !lookup_insert_ne, Hin by done; by eexists|].
        split; [done|].
        split; [intros _ _ _; rewrite !lookup_insert_ne by done;
                split; [done|]; rewrite lookup_insert_eq; by eexists|].
        intros p Hp Htmp. by rewrite !lookup_insert_ne.
    + exists fs. split; [done|]. split; [done|]. split; [by rewrite Hin|].
      by repeat split.
  - exists fs. split; [done|]. split; [done|].
    repeat split; try done; by intros [? ?].
Qed.
End OSFacts.

(** * Further properties of the code *)

(** X1 (uniqueClasses): the result has no duplicates, has the same
    members as the argument, and keeps them in the order of the argument. *)
Theorem uniqueClasses_distinct_members (classes : list string) :
  NoDup (uniqueClasses classes)
  /\ (forall x, x ∈ uniqueClasses classes <-> x ∈ classes)
  /\ uniqueClasses classes `sublist_of` classes.
Proof.
  split; [apply uniqueClasses_NoDup|]. split.
  - apply uniqueClasses_elem.
  - apply uniqueClasses_sublist.
Qed.

(** X2 (uniqueClasses): it is the first occurrence of a name that is
    kept: the head of the list stays at the head, and every later copy of
    it is dropped from what the rest of the list gives. *)
Theorem uniqueClasses_first_occurrence (c : string) (classes : list string) :
  uniqueClasses (c :: classes)
  = c :: filter (fun y => y <> c) (uniqueClasses classes).
Proof. apply uniqueClasses_cons. Qed.

(** X3 (uniqueClasses): a list without duplicates is returned as it is. *)
Theorem uniqueClasses_NoDup_unchanged (classes : list string) :
  NoDup classes -> uniqueClasses classes = classes.
Proof. apply uniqueClasses_id. Qed.

Lemma uniqueClasses_NoDup_unchanged_witness :
  uniqueClasses ["btn"; "card"; "title"] = ["btn"; "card"; "title"].
Proof.
  apply (uniqueClasses_NoDup_unchanged ["btn"; "card"; "title"]).
  apply (bool_decide_unpack _). vm_compute. exact I.
Defined.

(** X4 (isSupportedFile): a path is supported exactly when it ends in
    [.html], [.css], [.js] or [.php]; letter case counts, and so does a
    slash after the dot. *)
Theorem isSupportedFile_by_suffix (path : string) :
  isSupportedFile path
  = Strings.HasSuffix path ".html" || Strings.HasSuffix path ".css"
    || Strings.HasSuffix path ".js" || Strings.HasSuffix path ".php".
Proof. apply isSupportedFile_suffix. Qed.

(** X5 (isSupportedFile, renameClassesInFile): the temporary file of the
    rewrite pass, [path.tmp], is never a supported file, so neither pass
    works on one that was left behind. *)
Theorem isSupportedFile_temporary (path : string) :
  isSupportedFile (path +:+ ".tmp") = false.
Proof. apply isSupportedFile_tmp. Qed.

(** X6 (processFile and the three collectors): collecting from a file
    never panics, whatever the file holds, and it counts, one by one and in
    order, the names that the patterns of the file's dialect give on the
    lines that the scanner hands out. *)
Theorem processFile_counts_names (path input : string) (classCount : gmap string Z) :
  processFile path input classCount
  = Some (foldl increment classCount (fileNames path input)).
Proof. apply processFile_names. Qed.

(** X7 (main, first walk): the usage table does not depend on the order
    in which the files are visited, and the collection pass never panics. *)
Theorem collectPass_order_independent (paths1 paths2 : list string)
    (fs : gmap string string) (classCount : gmap string Z) :
  paths1 ≡ₚ paths2 ->
  is_Some (collectPass paths1 fs classCount)
  /\ collectPass paths1 fs classCount = collectPass paths2 fs classCount.
Proof.
  intros H. rewrite !collectPass_names. split; [by eexists|]. f_equal.
  by apply foldl_increment_perm, corpusNames_perm.
Qed.

Lemma collectPass_order_independent_witness :
  collectPass ["a.css"; "b.html"]
    (<["a.css" := ".x {}"]> (<["b.html" := "<p class=x>"]> ∅)) ∅
  = collectPass ["b.html"; "a.css"]
      (<["a.css" := ".x {}"]> (<["b.html" := "<p class=x>"]> ∅)) ∅.
Proof.
  apply (collectPass_order_independent ["a.css"; "b.html"] ["b.html"; "a.css"]).
  apply perm_swap.
Defined.

(** X8 (main, first walk): starting from the empty table, and as long as
    fewer than 2^63 names are read, the table holds exactly the names read
    from the supported files that could be opened, each with the number
    of times it was read. *)
Theorem collectPass_counts (paths : list string) (fs : gmap string string) :
  Z.of_nat (length (corpusNames paths fs)) < 2 ^ 63 ->
  exists classCount,
    collectPass paths fs ∅ = Some classCount
    /\ forall k, classCount !! k
                 = if decide (occurrences k (corpusNames paths fs) = 0) then None
                   else Some (occurrences k (corpusNames paths fs)).
Proof.
  intros Hlen. rewrite collectPass_names. eexists. split; [done|]. intros k.
  pose proof (occurrences_nonneg k (corpusNames paths fs)).
  pose proof (occurrences_le_length k (corpusNames paths fs)).
  destruct (decide _) as [E|E].
  - by rewrite foldl_increment_other.
  - rewrite foldl_increment_count; rewrite ?lookup_empty; simpl; [done|lia..].
Qed.

Lemma collectPass_counts_witness :
  exists classCount,
    collectPass ["a.css"; "b.html"; "c.txt"]
      (<["a.css" := ".x .y {}"]> (<["b.html" := "<p class=x>"]>
         (<["c.txt" := ".z"]> ∅))) ∅
    = Some classCount
    /\ forall k, classCount !! k
         = if decide (occurrences k (corpusNames ["a.css"; "b.html"; "c.txt"]
                        (<["a.css" := ".x .y {}"]> (<["b.html" := "<p class=x>"]>
                           (<["c.txt" := ".z"]> ∅)))) = 0) then None
           else Some (occurrences k (corpusNames ["a.css"; "b.html"; "c.txt"]
                        (<["a.css" := ".x .y {}"]> (<["b.html" := "<p class=x>"]>
                           (<["c.txt" := ".z"]> ∅))))).
Proof.
  apply (collectPass_counts ["a.css"; "b.html"; "c.txt"]
           (<["a.css" := ".x .y {}"]> (<["b.html" := "<p class=x>"]>
              (<["c.txt" := ".z"]> ∅)))).
  vm_compute. reflexivity.
Defined.

(** X9 (renameClassesInFile): the call always returns, whatever the
    operating system answers.  When the file cannot be opened or the
    temporary file cannot be created, the file system is left as it was.
    Otherwise the file is still there afterwards; when the rename
    succeeds, [path.tmp] is not, also when there was one before; when the
    rename fails, the file is as it was and [path.tmp] stays.  No other
    file is touched. *)
Theorem renameClassesInFile_effect (created renamed : bool) (path : string)
    (classMap : gmap string string) (allowDuplicates : bool)
    (fs : gmap string string) :
  exists fs',
    renameClassesInFileWith created renamed path classMap allowDuplicates fs
    = Some fs'
    /\ (fs !! path = None \/ created = false -> fs' = fs)
    /\ (is_Some (fs !! path) -> is_Some (fs' !! path))
    /\ (is_Some (fs !! path) -> created = true -> renamed = true ->
        fs' !! (path +:+ ".tmp") = None)
    /\ (is_Some (fs !! path) -> created = true -> renamed = false ->
        fs' !! path = fs !! path /\ is_Some (fs' !! (path +:+ ".tmp")))
    /\ (forall p, p <> path -> p <> path +:+ ".tmp" -> fs' !! p = fs !! p).
Proof. apply renameClassesInFileWith_frame. Qed.

Lemma renameClassesInFile_effect_witness :
  exists fs',
    renameClassesInFileWith false true "a.css" exampleMap false
      (<["a.css" := ".foo {}"]> (<["a.css.tmp" := "kept?"]> ∅)) = Some fs'
    /\ ((<["a.css" := ".foo {}"]> (<["a.css.tmp" := "kept?"]> ∅)
         : gmap string string) !! "a.css" = None \/ false = false ->
        fs' = <["a.css" := ".foo {}"]> (<["a.css.tmp" := "kept?"]> ∅))
    /\ (is_Some ((<["a.css" := ".foo {}"]> (<["a.css.tmp" := "kept?"]> ∅)
                  : gmap string string) !! "a.css") ->
        is_Some (fs' !! "a.css"))
    /\ (is_Some ((<["a.css" := ".foo {}"]> (<["a.css.tmp" := "kept?"]> ∅)
                  : gmap string string) !! "a.css") ->
        false = true -> true = true -> fs' !! ("a.css" +:+ ".tmp") = None)
    /\ (is_Some ((<["a.css" := ".foo {}"]> (<["a.css.tmp" := "kept?"]> ∅)
                  : gmap string string) !! "a.css") ->
        false = true -> true = false ->
        fs' !! "a.css"
        = (<["a.css" := ".foo {}"]> (<["a.css.tmp" := "kept?"]> ∅)
           : gmap string string) !! "a.css"
        /\ is_Some (fs' !! ("a.css" +:+ ".tmp")))
    /\ (forall p, p <> "a.css" -> p <> "a.css" +:+ ".tmp" ->
        fs' !! p
        = (<["a.css" := ".foo {}"]> (<["a.css.tmp" := "kept?"]> ∅)
           : gmap string string) !! p).
Proof.
  apply (renameClassesInFile_effect false true "a.css" exampleMap false
           (<["a.css" := ".foo {}"]> (<["a.css.tmp" := "kept?"]> ∅))).
Defined.

(** The three outcomes on a file with a temporary file left from before. *)
Example renameClassesInFileWith_outcomes :
  renameClassesInFileWith false true "a.css" exampleMap false
    (<["a.css" := ".foo {}"]> (<["a.css.tmp" := "kept?"]> ∅))
  = Some (<["a.css" := ".foo {}"]> (<["a.css.tmp" := "kept?"]> ∅))
  /\ renameClassesInFileWith true false "a.css" exampleMap false
       (<["a.css" := ".foo {}"]> (<["a.css.tmp" := "kept?"]> ∅))
     = Some (<["a.css" := ".foo {}"]> (<["a.css.tmp" := ".a {}" +:+ LF]> ∅))
  /\ renameClassesInFileWith true true "a.css" exampleMap false
       (<["a.css" := ".foo {}"]> (<["a.css.tmp" := "kept?"]> ∅))
     = Some (<["a.css" := ".a {}" +:+ LF]> ∅).
Proof. repeat split; vm_compute; reflexivity. Qed.

(** X10 (main): a run never panics; with [-preview] it leaves every file
    as it was, without it it prints no class map, and in both cases a file
    that is neither a supported file of the walk nor the temporary file of
    one is left as it was. *)
Theorem main_effect (sort_Slice : list ClassUsage -> list ClassUsage)
    (rangeCount : gmap string Z -> list (string * Z))
    (rangeMap : gmap string string -> list (string * string))
    (paths : list string) (preview allowDuplicates : bool)
    (fs : gmap string string) :
  exists out fs',
    main sort_Slice rangeCount rangeMap paths preview allowDuplicates fs
    = Some (out, fs')
    /\ (preview = true -> fs' = fs)
    /\ (preview = false -> out = EmptyString)
    /\ forall p,
         (forall q, q ∈ paths -> isSupportedFile q = true ->
                    p <> q /\ p <> q +:+ ".tmp") ->
         fs' !! p = fs !! p.
Proof. apply main_frame. Qed.

Lemma main_effect_witness :
  exists out fs',
    main (Sort.insertionSort byCountDesc) map_to_list map_to_list
      ["a.css"; "notes.txt"] false false
      (<["a.css" := ".foo {}"]> (<["notes.txt" := ".foo"]> ∅))
    = Some (out, fs')
    /\ (false = true ->
        fs' = <["a.css" := ".foo {}"]> (<["notes.txt" := ".foo"]> ∅))
    /\ (false = false -> out = EmptyString)
    /\ forall p,
         (forall q, q ∈ ["a.css"; "notes.txt"] -> isSupportedFile q = true ->
                    p <> q /\ p <> q +:+ ".tmp") ->
         fs' !! p
         = (<["a.css" := ".foo {}"]> (<["notes.txt" := ".foo"]> ∅)
            : gmap string string) !! p.
Proof.
  apply (main_effect (Sort.insertionSort byCountDesc) map_to_list map_to_list
           ["a.css"; "notes.txt"] false false
           (<["a.css" := ".foo {}"]> (<["notes.txt" := ".foo"]> ∅))).
Defined.

(** X11 (updateCSSClasses, updateHTMLClasses, updateJSClasses): no
    rewriter panics, on any line and with any class map: every slice that
    the rewriters take of a match is within the match. *)
Theorem updateLine_never_panics (path line : string)
    (classMap : gmap string string) (allowDuplicates : bool) :
  is_Some (updateLine path line classMap allowDuplicates)
  /\ is_Some (updateCSSClasses line classMap)
  /\ is_Some (updateJSClasses line classMap).
Proof.
  split; [apply updateLine_total|].
  split; [apply updateCSSClasses_total | apply updateJSClasses_total].
Qed.

(** X12 (regexp2FindAllString): on a line of ASCII text, every string
    returned is a piece of the line, and it is a whole match of the
    pattern: the text of the match, not that of a group in it. *)
Theorem regexp2FindAllString_sound (re : regex) (line m : string) :
  isASCII line = true ->
  m ∈ regexp2FindAllString re line ->
  (exists pre post, line = pre +:+ m +:+ post) /\ matches re m.
Proof.
  intros _ H%regexp2FindAllString_isMatch. split.
  - by eapply isMatchOf_substring.
  - by eapply isMatchOf_matches.
Qed.

Lemma regexp2FindAllString_sound_witness :
  (exists pre post, "a.btn:hover" = pre +:+ ".btn" +:+ post)
  /\ matches cssClassRegex ".btn".
Proof.
  apply (regexp2FindAllString_sound cssClassRegex "a.btn:hover" ".btn").
  - vm_compute. reflexivity.
  - vm_compute. apply list_elem_of_here.
Defined.

(** X13 (both passes): a line that holds none of the texts with which a
    match of its dialect begins gives no name to the collection pass and
    is written back unchanged by the rewrite pass, whatever the class
    map. *)
Theorem line_without_keyword (path line : string)
    (classMap : gmap string string) (allowDuplicates : bool) :
  noKeyword path line = true ->
  lineNames path line = []
  /\ updateLine path line classMap allowDuplicates = Some line.
Proof.
  intros H. split; [by apply lineNames_noKeyword | by apply updateLine_noKeyword].
Qed.

Lemma line_without_keyword_witness :
  lineNames "site.css" "body { margin: 0 }" = []
  /\ updateLine "site.css" "body { margin: 0 }" exampleMap false
     = Some "body { margin: 0 }".
Proof.
  apply (line_without_keyword "site.css" "body { margin: 0 }" exampleMap false).
  vm_compute. reflexivity.
Defined.

(** X14 (extractClassesFromCSS, updateCSSClasses): a class name read on a
    stylesheet line of ASCII text starts with a letter or an underscore
    and goes on with letters, digits, underscores and hyphens. *)
Theorem cssClassNames_identifier (line c : string) :
  isASCII line = true ->
  c ∈ cssClassNames line ->
  exists a w, c = String a w /\ isAlpha_ a = true
              /\ allChars (fun c => isWord c || is_ "-" c) w = true.
Proof. intros _. apply cssClassNames_shape. Qed.

Lemma cssClassNames_identifier_witness :
  exists a w, "btn-1" = String a w /\ isAlpha_ a = true
              /\ allChars (fun c => isWord c || is_ "-" c) w = true.
Proof.
  apply (cssClassNames_identifier "a.btn-1:hover" "btn-1").
  - vm_compute. reflexivity.
  - vm_compute. apply list_elem_of_here.
Defined.

(** X15 (extractClassesFromHTML): a name counted on a markup line is not
    empty and holds no white space. *)
Theorem htmlNames_tokens (line : string) (classCount : gmap string Z) :
  extractClassesFromHTML line classCount
  = foldl increment classCount (htmlNames line)
  /\ Forall (fun w => w <> EmptyString /\ allChars noSpace w = true)
       (htmlNames line).
Proof.
  split; [apply extractClassesFromHTML_names | apply htmlNames_spec].
Qed.

(** X16 (extractClassesFromClassList): no name returned begins or ends
    with a quote character. *)
Theorem extractClassesFromClassList_unquoted (match_ : string) (names : list string) :
  extractClassesFromClassList match_ = Some names ->
  Forall (fun c => (forall a, headChar c = Some a -> isQuote a = false)
                   /\ (forall a, lastChar c = Some a -> isQuote a = false)) names.
Proof. apply extractClassesFromClassList_quotes. Qed.

Lemma extractClassesFromClassList_unquoted_witness :
  Forall (fun c => (forall a, headChar c = Some a -> isQuote a = false)
                   /\ (forall a, lastChar c = Some a -> isQuote a = false))
    ["open"; "wide"].
Proof.
  apply (extractClassesFromClassList_unquoted
           ("classList.add(" +:+ sq +:+ "open" +:+ sq +:+ ", "
            +:+ dq +:+ "wide" +:+ dq +:+ ")")
           ["open"; "wide"]).
  vm_compute. reflexivity.
Defined.

(** X17 (generateShortClassName): a short name starts with one of the
    letters [a] to [z] and goes on with such letters and decimal digits
    only; so, with a dot before it, it is a class selector as the tool
    itself reads one. *)
Theorem generateShortClassName_selector_shape (i : Z) :
  0 <= i ->
  (exists a w, generateShortClassName i = String a w
               /\ isLower a = true
               /\ allChars (fun c => isLower c || isDigit c) w = true)
  /\ matches cssClassRegex ("." +:+ generateShortClassName i).
Proof.
  intros Hi.
  destruct (generateShortClassName_lower i Hi) as (a & w & E & Ha & Hw).
  split; [by exists a, w|].
  apply cssClassRegex_inv. exists a, w. rewrite E. split; [done|].
  split; [by apply isLower_isAlpha_|].
  eapply allChars_impl; [apply isLower_isDigit_isWord | exact Hw].
Qed.

Lemma generateShortClassName_selector_shape_witness :
  (exists a w, generateShortClassName 300 = String a w
               /\ isLower a = true
               /\ allChars (fun c => isLower c || isDigit c) w = true)
  /\ matches cssClassRegex ("." +:+ generateShortClassName 300).
Proof. apply (generateShortClassName_selector_shape 300). lia. Defined.

(** X18 (generateShortClassName): the index can be read back from the
    short name, so no two indices from 0 on have the same short name. *)
Theorem generateShortClassName_decode (i j : Z) :
  0 <= i -> 0 <= j ->
  shortNameIndex (generateShortClassName i) = i
  /\ (generateShortClassName i = generateShortClassName j -> i = j).
Proof.
  intros Hi Hj. split; [by apply shortNameIndex_generate|].
  intros H. apply (f_equal shortNameIndex) in H.
  by rewrite !shortNameIndex_generate in H.
Qed.

Lemma generateShortClassName_decode_witness :
  shortNameIndex (generateShortClassName 300) = 300
  /\ (generateShortClassName 300 = generateShortClassName 40 -> 300 = 40).
Proof. apply (generateShortClassName_decode 300 40); lia. Defined.

(** X19 (renameClassesInFile): the scanner stops at a line of 65536
    bytes or more, and the error is not looked at: the file is replaced
    by the rewritten lines before that line, and the long line and all
    that follows it are lost. *)
Theorem renameClassesInFile_long_line (path : string)
    (classMap : gmap string string) (allowDuplicates : bool)
    (fs : gmap string string) (lines : list (string * bool)) (rest : string) :
  fs !! path = Some (fileText lines rest) ->
  forallb lineFits lines = true ->
  Bufio.MaxScanTokenSize <= Strings.len (Bufio.breakLine rest).1 ->
  exists (fs' : gmap string string) (written : list string),
    renameClassesInFile path classMap allowDuplicates fs = Some fs'
    /\ Forall2 (fun l u => updateLine path l classMap allowDuplicates = Some u)
         lines.*1 written
    /\ fs' !! path = Some (writeLines written).
Proof.
  intros Hfs Hlines Hlong.
  unfold renameClassesInFile, renameClassesInFileWith. rewrite Hfs.
  rewrite tokens_lines_tail, tokens_too_long, app_nil_r by done.
  destruct (forEach_written
              (fun l => updateLine path l classMap allowDuplicates)
              lines.*1 EmptyString) as (us & Hus & ->).
  { intros l. apply updateLine_total. }
  simpl. eexists _, us. split; [done|]. split; [done|].
  by rewrite lookup_insert_eq.
Qed.

Lemma renameClassesInFile_long_line_witness :
  exists (fs' : gmap string string) (written : list string),
    renameClassesInFile "a.css" ∅ false
      (<["a.css" := fileText [(".x {}", false)]
                      (repeatChar "y" 65536 +:+ LF +:+ ".z {}")]> ∅)
    = Some fs'
    /\ Forall2 (fun l u => updateLine "a.css" l ∅ false = Some u)
         [(".x {}", false)].*1 written
    /\ fs' !! "a.css" = Some (writeLines written).
Proof.
  apply (renameClassesInFile_long_line "a.css" ∅ false
           (<["a.css" := fileText [(".x {}", false)]
                           (repeatChar "y" 65536 +:+ LF +:+ ".z {}")]> ∅)
           [(".x {}", false)] (repeatChar "y" 65536 +:+ LF +:+ ".z {}")).
  - apply lookup_insert_eq.
  - reflexivity.
  - apply Z.leb_le. vm_compute. reflexivity.
Defined.

(** X20 (generateClassMap): on any list of classes, the keys of the map
    are the names of the list, and a name that is in the list more than
    once gets the short name of its last position. *)
Theorem generateClassMap_last_wins (classes : list ClassUsage) (j : nat)
    (c : ClassUsage) :
  classes !! j = Some c ->
  (forall j' c', (j < j')%nat -> classes !! j' = Some c' -> name c' <> name c) ->
  dom (generateClassMap classes) = list_to_set (name <$> classes)
  /\ generateClassMap classes !! name c
     = Some (generateShortClassName (Z.of_nat j)).
Proof.
  intros Hj Hlast. unfold generateClassMap. split.
  - rewrite generateClassMap_go_dom, dom_empty_L. by rewrite (right_id_L ∅ (∪)).
  - by rewrite (generateClassMap_go_last classes 0 ∅ j c).
Qed.

Lemma generateClassMap_last_wins_witness :
  dom (generateClassMap [mkClassUsage "x" 3; mkClassUsage "y" 2; mkClassUsage "x" 1])
  = list_to_set
      (name <$> [mkClassUsage "x" 3; mkClassUsage "y" 2; mkClassUsage "x" 1])
  /\ generateClassMap [mkClassUsage "x" 3; mkClassUsage "y" 2; mkClassUsage "x" 1]
       !! name (mkClassUsage "x" 1)
     = Some (generateShortClassName (Z.of_nat 2)).
Proof.
  apply (generateClassMap_last_wins
           [mkClassUsage "x" 3; mkClassUsage "y" 2; mkClassUsage "x" 1] 2
           (mkClassUsage "x" 1)).
  - reflexivity.
  - intros [|[|[|j']]] c' Hlt Hc'; simpl in Hc'; try lia; done.
Defined.

(** X21 (main): whatever sorted permutation [sort.Slice] returns and in
    whatever order the usage table is iterated, the class map that the
    rewrite pass and the preview get has as its keys exactly the names
    that the collection pass read. *)
Theorem main_classMap_keys (sort_Slice : list ClassUsage -> list ClassUsage)
    (rangeCount : gmap string Z -> list (string * Z))
    (paths : list string) (fs : gmap string string) :
  (forall l, sort_Slice l ≡ₚ l) ->
  (forall classCount, rangeCount classCount ≡ₚ map_to_list classCount) ->
  exists classCount,
    collectPass paths fs ∅ = Some classCount
    /\ forall c,
         c ∈ corpusNames paths fs
         <-> is_Some (generateClassMap
                        (rankClasses sort_Slice (rangeCount classCount)) !! c).
Proof.
  intros Hperm Hrange. rewrite collectPass_names. eexists. split; [done|].
  intros c. rewrite <- elem_of_dom.
  rewrite (classMap_dom sort_Slice Hperm _ _ (Hrange _)).
  rewrite foldl_increment_dom, dom_empty_L. set_solver.
Qed.

Lemma main_classMap_keys_witness :
  exists classCount,
    collectPass ["a.css"; "b.html"]
      (<["a.css" := ".x .y {}"]> (<["b.html" := "<p class=x>"]> ∅)) ∅
    = Some classCount
    /\ forall c,
         c ∈ corpusNames ["a.css"; "b.html"]
               (<["a.css" := ".x .y {}"]> (<["b.html" := "<p class=x>"]> ∅))
         <-> is_Some (generateClassMap
                        (rankClasses (Sort.insertionSort byCountDesc)
                           (map_to_list classCount)) !! c).
Proof.
  apply (main_classMap_keys (Sort.insertionSort byCountDesc) map_to_list
           ["a.css"; "b.html"]
           (<["a.css" := ".x .y {}"]> (<["b.html" := "<p class=x>"]> ∅))).
  - intros l. apply insertionSort_perm.
  - reflexivity.
Defined.
